(** * TimelineService: the time-travel development timeline

    A shallow embedding of
    [frontend/just-built-frontend/src/features/time-travel/TimelineService.ts]
    and the proofs of its structural properties.

    Conventions of the embedding.
    - JavaScript [Map]s are finite maps ([gmap]); no property below depends on
      the iteration order of a [Map].
    - Objects held in a [Map] are mutated in place by the service.  An in-place
      mutation of the object fetched under key [k] is written as an update of
      slot [k]; the redundant [Map.set(obj.id, obj)] that follows in the source
      is kept as a second update.
    - [uuidv4()], [new Date()] and [Date.toISOString()] are inputs of the
      operation that calls them.  Dates are milliseconds since the epoch.
    - [undefined] results are [None]; [console.warn] output is returned as a
      list of console events.
    - Loops ([while]) take a fuel argument and return [None] when it runs out. *)

From stdpp Require Import gmap strings list fin_maps.
From Stdlib Require Import ZArith Lia.

Local Open Scope string_scope.
Local Open Scope Z_scope.

(** ** Data model *)

Inductive NodeType :=
  | decision | code | plan | explanation | alternative | user_edit.

Record TimelineNode := mkNode {
  node_id : string;
  timestamp : Z;
  node_type : NodeType;
  title : string;
  node_description : string;
  content : string;
  metadata : gmap string string;
  parentId : option string;
  childrenIds : list string;
  branchId : string;
  stepNumber : Z
}.

Record TimelineBranch := mkBranch {
  branch_id : string;
  branch_name : string;
  branch_description : string;
  created : Z;
  nodeIds : list string;
  isActive : bool;
  parentBranchId : option string;
  branchPoint : option string
}.

Record Timeline := mkTimeline {
  projectId : string;
  branches : gmap string TimelineBranch;
  nodes : gmap string TimelineNode;
  mainBranchId : string;
  activeBranchId : string;
  activeNodeId : string;
  checkpoints : gmap string string
}.

Record TimelineOptions := mkOptions {
  maxBranches : option Z;
  maxNodesPerBranch : option Z;
  autoCheckpointInterval : option Z
}.

(** [Partial<TimelineOptions>]: a key is absent ([None]) or present with a
    value that may itself be [undefined] ([Some None]). *)
Record PartialOptions := mkPartial {
  p_maxBranches : option (option Z);
  p_maxNodesPerBranch : option (option Z);
  p_autoCheckpointInterval : option (option Z)
}.

(** The part of a node the caller of [addNode] supplies:
    [Omit<TimelineNode, 'id' | 'timestamp' | 'childrenIds' | 'branchId' | 'stepNumber'>]. *)
Record NodeData := mkNodeData {
  d_type : NodeType;
  d_title : string;
  d_description : string;
  d_content : string;
  d_metadata : gmap string string;
  d_parentId : option string
}.

Record TimelineService := mkService {
  timelines : gmap string Timeline;
  options : TimelineOptions
}.

Inductive ConsoleEvent :=
  | WarnMaxBranches (configured : option Z).

(** ** Field updates (in-place mutations of one property) *)

Definition push_child (c : string) (n : TimelineNode) : TimelineNode :=
  mkNode (node_id n) (timestamp n) (node_type n) (title n) (node_description n)
         (content n) (metadata n) (parentId n) (childrenIds n ++ [c])
         (branchId n) (stepNumber n).

Definition push_nodeId (c : string) (b : TimelineBranch) : TimelineBranch :=
  mkBranch (branch_id b) (branch_name b) (branch_description b) (created b)
           (nodeIds b ++ [c]) (isActive b) (parentBranchId b) (branchPoint b).

Definition set_isActive (v : bool) (b : TimelineBranch) : TimelineBranch :=
  mkBranch (branch_id b) (branch_name b) (branch_description b) (created b)
           (nodeIds b) v (parentBranchId b) (branchPoint b).

Definition set_nodes (m : gmap string TimelineNode) (t : Timeline) : Timeline :=
  mkTimeline (projectId t) (branches t) m (mainBranchId t) (activeBranchId t)
             (activeNodeId t) (checkpoints t).

Definition set_branches (m : gmap string TimelineBranch) (t : Timeline) : Timeline :=
  mkTimeline (projectId t) m (nodes t) (mainBranchId t) (activeBranchId t)
             (activeNodeId t) (checkpoints t).

Definition set_activeNodeId (i : string) (t : Timeline) : Timeline :=
  mkTimeline (projectId t) (branches t) (nodes t) (mainBranchId t)
             (activeBranchId t) i (checkpoints t).

Definition set_activeBranchId (i : string) (t : Timeline) : Timeline :=
  mkTimeline (projectId t) (branches t) (nodes t) (mainBranchId t) i
             (activeNodeId t) (checkpoints t).

Definition set_checkpoints (m : gmap string string) (t : Timeline) : Timeline :=
  mkTimeline (projectId t) (branches t) (nodes t) (mainBranchId t)
             (activeBranchId t) (activeNodeId t) m.

Definition set_timelines (m : gmap string Timeline) (s : TimelineService)
  : TimelineService :=
  mkService m (options s).

(** ** JavaScript truthiness of the values the service tests *)

(** A string is falsy exactly when it is empty. *)
Definition truthy (x : string) : bool :=
  match x with EmptyString => false | String _ _ => true end.

(** [x || d] on an optional number: [undefined] and [0] are falsy. *)
Definition num_or (x : option Z) (d : Z) : Z :=
  match x with
  | None => d
  | Some v => if v =? 0 then d else v
  end.

(** ** Construction *)

Definition defaultOptions : TimelineOptions :=
  mkOptions (Some 10) (Some 100) (Some 15).

(** [{ ...this.options, ...options }] *)
Definition spread (o : TimelineOptions) (p : PartialOptions) : TimelineOptions :=
  mkOptions (default (maxBranches o) (p_maxBranches p))
            (default (maxNodesPerBranch o) (p_maxNodesPerBranch p))
            (default (autoCheckpointInterval o) (p_autoCheckpointInterval p)).

Definition new_service (opts : option PartialOptions) : TimelineService :=
  mkService ∅ (match opts with
               | Some p => spread defaultOptions p
               | None => defaultOptions
               end).

(** ** Operations *)

Definition getTimeline (s : TimelineService) (pid : string) : option Timeline :=
  timelines s !! pid.

(** [createTimeline(projectId, initialDescription)].  [mainBranchIdNew] and
    [initialNodeId] are the two [uuidv4()] results, [createdAt] and [ts] the
    two clock reads. *)
Definition createTimeline (s : TimelineService) (pid initialDescription : string)
    (mainBranchIdNew : string) (createdAt : Z) (initialNodeId : string) (ts : Z)
  : TimelineService * Timeline :=
  let mainBranch :=
    mkBranch mainBranchIdNew "Main" "Main development branch" createdAt
             [] true None None in
  let initialNode :=
    mkNode initialNodeId ts plan "Project Initialization" initialDescription
           ("Project initialized with description: " ++ initialDescription)
           ∅ None [] mainBranchIdNew 1 in
  let mainBranch := push_nodeId initialNodeId mainBranch in
  let timeline :=
    mkTimeline pid {[ mainBranchIdNew := mainBranch ]}
               {[ initialNodeId := initialNode ]}
               mainBranchIdNew mainBranchIdNew initialNodeId
               {[ "initial" := initialNodeId ]} in
  (set_timelines (<[pid := timeline]> (timelines s)) s, timeline).

(** [createCheckpoint(projectId, checkpointName)] *)
Definition createCheckpoint (s : TimelineService) (pid checkpointName : string)
  : TimelineService * bool :=
  match getTimeline s pid with
  | None => (s, false)
  | Some timeline =>
      let timeline' :=
        set_checkpoints (<[checkpointName := activeNodeId timeline]>
                           (checkpoints timeline)) timeline in
      (set_timelines (<[pid := timeline']> (timelines s)) s, true)
  end.

(** [s.replace(/[:.]/g, '-')]: 58 is the colon, 46 the dot, 45 the dash. *)
Fixpoint replace_colon_dot (x : string) : string :=
  match x with
  | EmptyString => EmptyString
  | String c r =>
      String (if decide (c = Ascii.ascii_of_nat 58) then Ascii.ascii_of_nat 45
              else if decide (c = Ascii.ascii_of_nat 46) then Ascii.ascii_of_nat 45
              else c)
             (replace_colon_dot r)
  end.

(** The latest timestamp among the nodes bound by a checkpoint, starting
    from [new Date(0)]; a checkpoint whose node is missing counts as
    [new Date(0)]. *)
Definition latestCheckpointTime (timeline : Timeline) : Z :=
  foldl (fun latest current => if current >? latest then current else latest) 0
        ((fun e : string * string =>
            match nodes timeline !! e.2 with
            | Some n => timestamp n
            | None => 0
            end) <$> map_to_list (checkpoints timeline)).

(** [createAutoCheckpointIfNeeded(timeline)].  [now] is the clock read and
    [iso] the value of [now.toISOString()].  The source compares
    [(now - latest) / (1000 * 60) >= interval]; the divisor is positive, so
    the comparison is made on the product. *)
Definition createAutoCheckpointIfNeeded (s : TimelineService) (timeline : Timeline)
    (now : Z) (iso : string) : TimelineService :=
  match autoCheckpointInterval (options s) with
  | None => s
  | Some interval =>
      if interval =? 0 then s
      else if now - latestCheckpointTime timeline >=? interval * (1000 * 60)
      then (createCheckpoint s (projectId timeline)
              ("auto-" ++ replace_colon_dot iso)).1
      else s
  end.

(** [addNode(projectId, nodeData)].  [newNodeId] is the [uuidv4()] result,
    [ts] the node's clock read, [now] and [iso] the clock read of the
    automatic-checkpoint check.  The keys written after the spread of
    [nodeData] win, so a [parentId] given by the caller is dropped. *)
Definition addNode (s : TimelineService) (pid : string) (nodeData : NodeData)
    (newNodeId : string) (ts now : Z) (iso : string)
  : TimelineService * option TimelineNode :=
  match getTimeline s pid with
  | None => (s, None)
  | Some timeline =>
    match branches timeline !! activeBranchId timeline with
    | None => (s, None)
    | Some activeBranch =>
      match nodes timeline !! activeNodeId timeline with
      | None => (s, None)
      | Some activeNode =>
          let newNode :=
            mkNode newNodeId ts (d_type nodeData) (d_title nodeData)
                   (d_description nodeData) (d_content nodeData)
                   (d_metadata nodeData) (Some (node_id activeNode)) []
                   (activeBranchId timeline) (stepNumber activeNode + 1) in
          (* activeNode.childrenIds.push(newNodeId) *)
          let activeNode := push_child newNodeId activeNode in
          let nodes1 := <[activeNodeId timeline := activeNode]> (nodes timeline) in
          let nodes2 := <[node_id activeNode := activeNode]> nodes1 in
          let nodes3 := <[newNodeId := newNode]> nodes2 in
          (* activeBranch.nodeIds.push(newNodeId) *)
          let activeBranch := push_nodeId newNodeId activeBranch in
          let branches1 :=
            <[activeBranchId timeline := activeBranch]> (branches timeline) in
          let branches2 := <[branch_id activeBranch := activeBranch]> branches1 in
          let timeline :=
            set_activeNodeId newNodeId
              (set_branches branches2 (set_nodes nodes3 timeline)) in
          let s := set_timelines (<[pid := timeline]> (timelines s)) s in
          (createAutoCheckpointIfNeeded s timeline now iso, Some newNode)
      end
    end
  end.

(** [navigateToNode(projectId, nodeId)] *)
Definition navigateToNode (s : TimelineService) (pid nodeId : string)
  : TimelineService * bool :=
  match getTimeline s pid with
  | None => (s, false)
  | Some timeline =>
    match nodes timeline !! nodeId with
    | None => (s, false)
    | Some targetNode =>
      match branches timeline !! branchId targetNode with
      | None => (s, false)
      | Some targetBranch =>
          let timeline :=
            set_activeBranchId (branchId targetNode)
              (set_activeNodeId nodeId timeline) in
          (set_timelines (<[pid := timeline]> (timelines s)) s, true)
      end
    end
  end.

(** [createBranch(projectId, branchName, branchDescription)].  [newBranchId]
    is the [uuidv4()] result and [createdAt] the clock read. *)
Definition createBranch (s : TimelineService) (pid branchName branchDescription : string)
    (newBranchId : string) (createdAt : Z)
  : TimelineService * option TimelineBranch * list ConsoleEvent :=
  match getTimeline s pid with
  | None => (s, None, [])
  | Some timeline =>
    match nodes timeline !! activeNodeId timeline with
    | None => (s, None, [])
    | Some activeNode =>
      if Z.of_nat (size (branches timeline)) >=? num_or (maxBranches (options s)) 10
      then (s, None, [WarnMaxBranches (maxBranches (options s))])
      else
        let newBranch :=
          mkBranch newBranchId branchName branchDescription createdAt
                   [node_id activeNode] true (Some (branchId activeNode))
                   (Some (node_id activeNode)) in
        let branches1 := <[newBranchId := newBranch]> (branches timeline) in
        (* every other branch becomes inactive *)
        let branches2 :=
          map_imap (fun k b => Some (if decide (k = newBranchId) then b
                                      else set_isActive false b)) branches1 in
        let timeline :=
          set_activeBranchId newBranchId (set_branches branches2 timeline) in
        (set_timelines (<[pid := timeline]> (timelines s)) s, Some newBranch, [])
    end
  end.

(** [navigateToCheckpoint(projectId, checkpointName)] *)
Definition navigateToCheckpoint (s : TimelineService) (pid checkpointName : string)
  : TimelineService * bool :=
  match getTimeline s pid with
  | None => (s, false)
  | Some timeline =>
    match checkpoints timeline !! checkpointName with
    | None => (s, false)
    | Some checkpointNodeId =>
        if truthy checkpointNodeId then navigateToNode s pid checkpointNodeId
        else (s, false)
    end
  end.

(** [getCurrentPath(projectId)]: the [while] loop, one iteration per unit of
    fuel.  [path.unshift(node)] puts the node in front. *)
Fixpoint getCurrentPath_loop (fuel : nat) (nds : gmap string TimelineNode)
    (currentNodeId : string) (path : list TimelineNode)
  : option (list TimelineNode) :=
  match fuel with
  | O => None
  | S fuel =>
      if truthy currentNodeId then
        match nds !! currentNodeId with
        | None => Some path
        | Some currentNode =>
            let path := currentNode :: path in
            match parentId currentNode with
            | None => Some path
            | Some p =>
                if truthy p then getCurrentPath_loop fuel nds p path
                else Some path
            end
        end
      else Some path
  end.

Definition getCurrentPath (s : TimelineService) (pid : string) (fuel : nat)
  : option (list TimelineNode) :=
  match getTimeline s pid with
  | None => Some []
  | Some timeline =>
      getCurrentPath_loop fuel (nodes timeline) (activeNodeId timeline) []
  end.

(** [findPathBetweenNodes(timeline, startNodeId, endNodeId)]: breadth-first
    search over children and parent links.  The outer [option] is the fuel,
    the inner one the [null] result. *)
Fixpoint findPath_loop (fuel : nat) (nds : gmap string TimelineNode)
    (endNodeId : string) (queue : list (string * list TimelineNode))
    (visited : gset string) : option (option (list TimelineNode)) :=
  match fuel with
  | O => None
  | S fuel =>
      match queue with
      | [] => Some None
      | (nodeId, path) :: queue =>
          if decide (nodeId ∈ visited) then
            findPath_loop fuel nds endNodeId queue visited
          else
            let visited := {[ nodeId ]} ∪ visited in
            match nds !! nodeId with
            | None => findPath_loop fuel nds endNodeId queue visited
            | Some node =>
                let newPath := (path ++ [node])%list in
                if decide (nodeId = endNodeId) then Some (Some newPath)
                else
                  let queue :=
                    (queue ++ ((fun c => (c, newPath)) <$> childrenIds node))%list in
                  let queue :=
                    match parentId node with
                    | Some p =>
                        if truthy p && negb (bool_decide (p ∈ visited))
                        then (queue ++ [(p, newPath)])%list
                        else queue
                    | None => queue
                    end in
                  findPath_loop fuel nds endNodeId queue visited
            end
      end
  end.

Definition findPathBetweenNodes (fuel : nat) (timeline : Timeline)
    (startNodeId endNodeId : string) : option (option (list TimelineNode)) :=
  findPath_loop fuel (nodes timeline) endNodeId [(startNodeId, [])] ∅.

(** ** The public operations as a labelled transition system

    The operations that write to the service, each with the values it draws
    from [uuidv4()] and from the clock.  The remaining public methods only
    read. *)

Inductive Op :=
  | OpCreateTimeline (pid initialDescription mainBranchIdNew : string)
      (createdAt : Z) (initialNodeId : string) (ts : Z)
  | OpAddNode (pid : string) (nodeData : NodeData) (newNodeId : string)
      (ts now : Z) (iso : string)
  | OpNavigateToNode (pid nodeId : string)
  | OpCreateBranch (pid branchName branchDescription newBranchId : string)
      (createdAt : Z)
  | OpCreateCheckpoint (pid checkpointName : string)
  | OpNavigateToCheckpoint (pid checkpointName : string).

Definition exec (op : Op) (s : TimelineService) : TimelineService :=
  match op with
  | OpCreateTimeline pid d b c n t => (createTimeline s pid d b c n t).1
  | OpAddNode pid d n t now iso => (addNode s pid d n t now iso).1
  | OpNavigateToNode pid n => (navigateToNode s pid n).1
  | OpCreateBranch pid x d b c => (createBranch s pid x d b c).1.1
  | OpCreateCheckpoint pid x => (createCheckpoint s pid x).1
  | OpNavigateToCheckpoint pid x => (navigateToCheckpoint s pid x).1
  end.

(** What is assumed of [uuidv4()]: an identifier is a non-empty string that
    the timeline it goes into has not used for the same kind of object. *)
Definition uuid_fresh (op : Op) (s : TimelineService) : Prop :=
  match op with
  | OpCreateTimeline _ _ _ _ n _ => truthy n = true
  | OpAddNode pid _ n _ _ _ =>
      truthy n = true ∧
      match getTimeline s pid with
      | Some timeline => nodes timeline !! n = None
      | None => True
      end
  | OpCreateBranch pid _ _ b _ =>
      match getTimeline s pid with
      | Some timeline => branches timeline !! b = None
      | None => True
      end
  | _ => True
  end.

Inductive reachable : TimelineService → Prop :=
  | reach_new opts : reachable (new_service opts)
  | reach_step s op : reachable s → uuid_fresh op s → reachable (exec op s).

(** ** The operations seen from one timeline

    Every operation touches only the timeline stored under its project
    identifier.  The functions below describe that effect on the timeline
    alone; [exec_local] relates them to the operations of the service. *)

Definition initial_timeline (pid initialDescription mainBranchIdNew : string)
    (createdAt : Z) (initialNodeId : string) (ts : Z) : Timeline :=
  (createTimeline (new_service None) pid initialDescription mainBranchIdNew
                  createdAt initialNodeId ts).2.

Definition tl_createCheckpoint (x : string) (tl : Timeline) : Timeline :=
  set_checkpoints (<[x := activeNodeId tl]> (checkpoints tl)) tl.

Definition tl_auto (opts : TimelineOptions) (now : Z) (iso : string)
    (tl : Timeline) : Timeline :=
  match autoCheckpointInterval opts with
  | None => tl
  | Some interval =>
      if interval =? 0 then tl
      else if now - latestCheckpointTime tl >=? interval * (1000 * 60)
      then tl_createCheckpoint ("auto-" ++ replace_colon_dot iso) tl
      else tl
  end.

(** The node [addNode] builds, with the cursor as parent. *)
Definition inserted_node (nodeData : NodeData) (newNodeId : string) (ts : Z)
    (an : TimelineNode) (tl : Timeline) : TimelineNode :=
  mkNode newNodeId ts (d_type nodeData) (d_title nodeData)
         (d_description nodeData) (d_content nodeData) (d_metadata nodeData)
         (Some (activeNodeId tl)) [] (activeBranchId tl) (stepNumber an + 1).

Definition tl_inserted (nodeData : NodeData) (newNodeId : string) (ts : Z)
    (ab : TimelineBranch) (an : TimelineNode) (tl : Timeline) : Timeline :=
  set_activeNodeId newNodeId
    (set_branches
       (<[branch_id ab := push_nodeId newNodeId ab]>
          (<[activeBranchId tl := push_nodeId newNodeId ab]> (branches tl)))
       (set_nodes
          (<[newNodeId :=
               mkNode newNodeId ts (d_type nodeData) (d_title nodeData)
                      (d_description nodeData) (d_content nodeData)
                      (d_metadata nodeData) (Some (node_id an)) []
                      (activeBranchId tl) (stepNumber an + 1)]>
             (<[node_id an := push_child newNodeId an]>
                (<[activeNodeId tl := push_child newNodeId an]> (nodes tl))))
          tl)).

Definition tl_addNode (opts : TimelineOptions) (nodeData : NodeData)
    (newNodeId : string) (ts now : Z) (iso : string) (tl : Timeline) : Timeline :=
  match branches tl !! activeBranchId tl, nodes tl !! activeNodeId tl with
  | Some ab, Some an =>
      tl_auto opts now iso (tl_inserted nodeData newNodeId ts ab an tl)
  | _, _ => tl
  end.

Definition tl_navigateToNode (nodeId : string) (tl : Timeline) : Timeline :=
  match nodes tl !! nodeId with
  | Some n =>
      match branches tl !! branchId n with
      | Some _ => set_activeBranchId (branchId n) (set_activeNodeId nodeId tl)
      | None => tl
      end
  | None => tl
  end.

Definition deactivate_others (keep : string) (bs : gmap string TimelineBranch)
  : gmap string TimelineBranch :=
  map_imap (fun k b => Some (if decide (k = keep) then b
                              else set_isActive false b)) bs.

Definition tl_forked (name desc newBranchId : string) (createdAt : Z)
    (an : TimelineNode) (tl : Timeline) : Timeline :=
  set_activeBranchId newBranchId
    (set_branches
       (deactivate_others newBranchId
          (<[newBranchId :=
               mkBranch newBranchId name desc createdAt [node_id an] true
                        (Some (branchId an)) (Some (node_id an))]>
             (branches tl)))
       tl).

Definition tl_createBranch (opts : TimelineOptions) (name desc newBranchId : string)
    (createdAt : Z) (tl : Timeline) : Timeline :=
  match nodes tl !! activeNodeId tl with
  | Some an =>
      if Z.of_nat (size (branches tl)) >=? num_or (maxBranches opts) 10 then tl
      else tl_forked name desc newBranchId createdAt an tl
  | None => tl
  end.

Definition tl_navigateToCheckpoint (x : string) (tl : Timeline) : Timeline :=
  match checkpoints tl !! x with
  | Some k => if truthy k then tl_navigateToNode k tl else tl
  | None => tl
  end.

Definition op_pid (op : Op) : string :=
  match op with
  | OpCreateTimeline pid _ _ _ _ _ | OpAddNode pid _ _ _ _ _
  | OpNavigateToNode pid _ | OpCreateBranch pid _ _ _ _
  | OpCreateCheckpoint pid _ | OpNavigateToCheckpoint pid _ => pid
  end.

Definition tl_exec (opts : TimelineOptions) (op : Op) (o : option Timeline)
  : option Timeline :=
  match op with
  | OpCreateTimeline pid d b c n t => Some (initial_timeline pid d b c n t)
  | OpAddNode _ d n t now iso => tl_addNode opts d n t now iso <$> o
  | OpNavigateToNode _ n => tl_navigateToNode n <$> o
  | OpCreateBranch _ x d b c => tl_createBranch opts x d b c <$> o
  | OpCreateCheckpoint _ x => tl_createCheckpoint x <$> o
  | OpNavigateToCheckpoint _ x => tl_navigateToCheckpoint x <$> o
  end.

(** Every timeline is stored under its own project identifier. *)
Definition keyed (s : TimelineService) : Prop :=
  ∀ pid tl, timelines s !! pid = Some tl → projectId tl = pid.

(** ** Well-formedness *)

(** The history of a timeline: its node store [nds] and cursor [a].  Nodes
    are stored under their own non-empty identifier, the cursor names a stored
    node, every parent is stored and is one step before its child, and a node
    without parent is at step 1.  Steps grow along parent links, so the links
    are acyclic. *)
Record history_ok (nds : gmap string TimelineNode) (a : string) : Prop := {
  h_key : ∀ k n, nds !! k = Some n → node_id n = k ∧ truthy k = true;
  h_active : is_Some (nds !! a);
  h_parent : ∀ k n p, nds !! k = Some n → parentId n = Some p →
             ∃ pn, nds !! p = Some pn ∧ stepNumber n = stepNumber pn + 1;
  h_root : ∀ k n, nds !! k = Some n → parentId n = None → stepNumber n = 1;
  h_pos : ∀ k n, nds !! k = Some n → 1 ≤ stepNumber n
}.

(** The branch that carries the [isActive] flag is unique. *)
Definition one_active (bs : gmap string TimelineBranch) : Prop :=
  ∃ k b, bs !! k = Some b ∧ isActive b = true ∧
         ∀ k' b', bs !! k' = Some b' → isActive b' = true → k' = k.

(** Parent and child links mirror each other. *)
Definition links_ok (nds : gmap string TimelineNode) : Prop :=
  (∀ k n p, nds !! k = Some n → parentId n = Some p →
     ∃ pn, nds !! p = Some pn ∧ node_id pn = p ∧ node_id n ∈ childrenIds pn) ∧
  (∀ k n c, nds !! k = Some n → c ∈ childrenIds n →
     ∃ cn, nds !! c = Some cn ∧ parentId cn = Some (node_id n)).

(** Where the cursor sits: in the node list of the active branch, on a node
    of that branch or on the node the active branch was forked at. *)
Definition cursor_ok (tl : Timeline) : Prop :=
  ∃ an ab,
    nodes tl !! activeNodeId tl = Some an ∧
    branches tl !! activeBranchId tl = Some ab ∧
    activeNodeId tl ∈ nodeIds ab ∧
    (branchId an = activeBranchId tl ∨
     (branchPoint ab = Some (activeNodeId tl) ∧
      parentBranchId ab = Some (branchId an))).

(** Which branch lists hold a node: the list of its own branch, and the
    lists of the branches forked at it. *)
Definition membership_ok (tl : Timeline) : Prop :=
  (∀ k n, nodes tl !! k = Some n →
     ∃ b, branches tl !! branchId n = Some b ∧ k ∈ nodeIds b) ∧
  (∀ kb b k, branches tl !! kb = Some b → k ∈ nodeIds b →
     ∃ n, nodes tl !! k = Some n ∧ (branchId n = kb ∨ branchPoint b = Some k)) ∧
  (∀ kb b p, branches tl !! kb = Some b → branchPoint b = Some p →
     ∃ pn, nodes tl !! p = Some pn ∧ branchId pn ≠ kb).

Record well_formed (tl : Timeline) : Prop := {
  wf_history : history_ok (nodes tl) (activeNodeId tl);
  wf_branch_key : ∀ k b, branches tl !! k = Some b → branch_id b = k;
  wf_one_active : one_active (branches tl);
  wf_links : links_ok (nodes tl);
  wf_cursor : cursor_ok tl;
  wf_membership : membership_ok tl
}.

Definition service_ok (s : TimelineService) : Prop :=
  ∀ pid tl, timelines s !! pid = Some tl → projectId tl = pid ∧ well_formed tl.

(** The freshness assumption on [uuidv4()], seen from one timeline. *)
Definition tl_fresh (op : Op) (tl : Timeline) : Prop :=
  match op with
  | OpCreateTimeline _ _ _ _ n _ => truthy n = true
  | OpAddNode _ _ n _ _ _ => truthy n = true ∧ nodes tl !! n = None
  | OpCreateBranch _ _ _ b _ => branches tl !! b = None
  | _ => True
  end.

(** ** Runs and sample histories *)

Fixpoint run (ops : list Op) (s : TimelineService) : TimelineService :=
  match ops with
  | [] => s
  | op :: ops => run ops (exec op s)
  end.

Fixpoint fresh_run (ops : list Op) (s : TimelineService) : Prop :=
  match ops with
  | [] => True
  | op :: ops => uuid_fresh op s ∧ fresh_run ops (exec op s)
  end.

Definition sample_data : NodeData := mkNodeData plan "step" "a step" "text" ∅ None.

(** A project with its root node and one fork made at the root. *)
Definition forked_ops : list Op :=
  [ OpCreateTimeline "P1" "demo" "b0" 0 "n0" 0;
    OpCreateBranch "P1" "experiment" "try alt" "b1" 1 ].

Definition forked_service : TimelineService := run forked_ops (new_service None).

(** A project with three nodes added on the main branch. *)
Definition linear_ops : list Op :=
  [ OpCreateTimeline "P1" "demo" "b0" 0 "n0" 0;
    OpAddNode "P1" sample_data "n1" 1 1 "1970-01-01T00:00:00.001Z";
    OpAddNode "P1" sample_data "n2" 2 2 "1970-01-01T00:00:00.002Z";
    OpAddNode "P1" sample_data "n3" 3 3 "1970-01-01T00:00:00.003Z" ].

Definition linear_service : TimelineService := run linear_ops (new_service None).

(** The timeline a service holds for a project (an empty one if none). *)
Definition timeline_of (s : TimelineService) (pid : string) : Timeline :=
  default (mkTimeline pid ∅ ∅ "" "" "" ∅) (timelines s !! pid).

(** A project forked nine times at its root: ten branches, the default cap. *)
Definition crowded_ops : list Op :=
  OpCreateTimeline "P1" "demo" "b0" 0 "n0" 0
  :: ((fun b => OpCreateBranch "P1" "experiment" "try alt" b 1)
        <$> ["b1"; "b2"; "b3"; "b4"; "b5"; "b6"; "b7"; "b8"; "b9"]).

Definition crowded_service : TimelineService := run crowded_ops (new_service None).

(** ** Paths *)

(** Each node of the list is the parent of the next one. *)
Fixpoint linked (l : list TimelineNode) : Prop :=
  match l with
  | x :: (y :: _) as r => parentId y = Some (node_id x) ∧ linked r
  | _ => True
  end.

(** A straight line in the node store [nds]: every node of the list is
    stored under its identifier, its parent is the node before it ([prev]
    for the first one) and its only child is the node after it (none for the
    last one). *)
Fixpoint straight_line (nds : gmap string TimelineNode) (prev : option string)
    (l : list TimelineNode) : Prop :=
  match l with
  | [] => True
  | n :: rest =>
      nds !! node_id n = Some n ∧ parentId n = prev ∧
      childrenIds n = match rest with
                      | m :: _ => [node_id m]
                      | [] => []
                      end ∧
      straight_line nds (Some (node_id n)) rest
  end.

(** A straight-line history of five nodes on the main branch. *)
Definition chain_ops : list Op :=
  (linear_ops ++ [OpAddNode "P1" sample_data "n4" 4 4 "1970-01-01T00:00:00.004Z"])%list.

Definition chain_service : TimelineService := run chain_ops (new_service None).

Definition chain_root : TimelineNode :=
  mkNode "n0" 0 plan "Project Initialization" "demo"
         "Project initialized with description: demo" ∅ None ["n1"] "b0" 1.

Definition chain_step (i : Z) (self parent : string) (children : list string)
  : TimelineNode :=
  mkNode self i plan "step" "a step" "text" ∅ (Some parent) children "b0" (i + 1).

(** ** Checkpoints *)

(** The operations that may bind the checkpoint name [x] of project [pid]
    again, or replace the timeline of the project. *)
Definition rebinds (pid x : string) (op : Op) : Prop :=
  match op with
  | OpCreateTimeline q _ _ _ _ _ => q = pid
  | OpCreateCheckpoint q y => q = pid ∧ y = x
  | OpAddNode q _ _ _ _ iso => q = pid ∧ "auto-" ++ replace_colon_dot iso = x
  | _ => False
  end.

(** The checkpoint [x] is bound to the stored node [k], whose branch [β] is
    stored. *)
Definition anchored (k β x : string) (tl : Timeline) : Prop :=
  checkpoints tl !! x = Some k ∧
  ∃ n b, nodes tl !! k = Some n ∧ branchId n = β ∧ branches tl !! β = Some b.


(** ** The reading operations *)

(** [getCheckpoints(projectId)] *)
Definition getCheckpoints (s : TimelineService) (pid : string)
  : option (gmap string string) :=
  match getTimeline s pid with
  | None => None
  | Some timeline => Some (checkpoints timeline)
  end.

(** [buildPathFromNode(timeline, startNodeId)]: the [while] loop, one
    iteration per unit of fuel; the walk goes down through first children. *)
Fixpoint buildPathFromNode_loop (fuel : nat) (nds : gmap string TimelineNode)
    (currentNodeId : string) (path : list TimelineNode)
  : option (list TimelineNode) :=
  match fuel with
  | O => None
  | S fuel =>
      if truthy currentNodeId then
        match nds !! currentNodeId with
        | None => Some path
        | Some currentNode =>
            let path := (path ++ [currentNode])%list in
            match childrenIds currentNode with
            | [] => Some path
            | c :: _ => buildPathFromNode_loop fuel nds c path
            end
        end
      else Some path
  end.

Definition buildPathFromNode (fuel : nat) (timeline : Timeline)
    (startNodeId : string) : option (list TimelineNode) :=
  buildPathFromNode_loop fuel (nodes timeline) startNodeId [].

(** The [for] loop of [getAlternativePaths] over the children of the node;
    a path is kept when it is not empty. *)
Fixpoint alternativePaths_loop (fuel : nat) (timeline : Timeline)
    (children : list string) (alternativePaths : list (list TimelineNode))
  : option (list (list TimelineNode)) :=
  match children with
  | [] => Some alternativePaths
  | childId :: children =>
      match buildPathFromNode fuel timeline childId with
      | None => None
      | Some path =>
          alternativePaths_loop fuel timeline children
            (if (0 <? length path)%nat
             then (alternativePaths ++ [path])%list
             else alternativePaths)
      end
  end.

(** [getAlternativePaths(projectId, nodeId)] *)
Definition getAlternativePaths (s : TimelineService) (pid nodeId : string)
    (fuel : nat) : option (list (list TimelineNode)) :=
  match getTimeline s pid with
  | None => Some []
  | Some timeline =>
      match nodes timeline !! nodeId with
      | None => Some []
      | Some node => alternativePaths_loop fuel timeline (childrenIds node) []
      end
  end.

#[global] Instance NodeType_eq_dec : EqDecision NodeType.
Proof. solve_decision. Defined.

(** The object [compareNodes] returns. *)
Record NodeSummary := mkSummary {
  sum_id : string;
  sum_title : string;
  sum_type : NodeType;
  sum_content : string
}.

Record Differences := mkDifferences {
  diff_title : bool;
  diff_type : bool;
  diff_content : bool
}.

Record Comparison := mkComparison {
  node1 : NodeSummary;
  node2 : NodeSummary;
  differences : Differences
}.

Definition summary_of (n : TimelineNode) : NodeSummary :=
  mkSummary (node_id n) (title n) (node_type n) (content n).

(** [compareNodes(projectId, nodeId1, nodeId2)]; [None] is [null]. *)
Definition compareNodes (s : TimelineService) (pid nodeId1 nodeId2 : string)
  : option Comparison :=
  match getTimeline s pid with
  | None => None
  | Some timeline =>
      match nodes timeline !! nodeId1, nodes timeline !! nodeId2 with
      | Some n1, Some n2 =>
          Some (mkComparison (summary_of n1) (summary_of n2)
                  (mkDifferences
                     (negb (bool_decide (title n1 = title n2)))
                     (negb (bool_decide (node_type n1 = node_type n2)))
                     (negb (bool_decide (content n1 = content n2)))))
      | _, _ => None
      end
  end.

(** The object [getVisualizationData] returns. *)
Record VisNode := mkVisNode {
  vn_id : string;
  vn_label : string;
  vn_type : NodeType;
  vn_branchId : string;
  vn_stepNumber : Z;
  vn_isActive : bool
}.

Record VisEdge := mkVisEdge {
  ve_id : string;
  ve_source : string;
  ve_target : string
}.

Record VisBranch := mkVisBranch {
  vb_id : string;
  vb_name : string;
  vb_isActive : bool;
  vb_parentBranchId : option string
}.

Record Visualization := mkVisualization {
  vis_nodes : list VisNode;
  vis_edges : list VisEdge;
  vis_branches : list VisBranch
}.

(** [Array.from(map.values())]: the values of a finite map, in the order of
    [map_to_list].  A JavaScript [Map] lists them in insertion order; what is
    proved of the lists below does not depend on their order. *)
Definition values {A} (m : gmap string A) : list A := snd <$> map_to_list m.

Definition edges_of (node : TimelineNode) : list VisEdge :=
  (fun childId => mkVisEdge (node_id node ++ "-" ++ childId) (node_id node) childId)
    <$> childrenIds node.

(** [getVisualizationData(projectId)]; [None] is [null]. *)
Definition getVisualizationData (s : TimelineService) (pid : string)
  : option Visualization :=
  match getTimeline s pid with
  | None => None
  | Some timeline =>
      Some (mkVisualization
              ((fun node =>
                  mkVisNode (node_id node) (title node) (node_type node)
                            (branchId node) (stepNumber node)
                            (bool_decide (node_id node = activeNodeId timeline)))
                 <$> values (nodes timeline))
              (concat (edges_of <$> values (nodes timeline)))
              ((fun branch =>
                  mkVisBranch (branch_id branch) (branch_name branch)
                              (bool_decide (branch_id branch = activeBranchId timeline))
                              (parentBranchId branch))
                 <$> values (branches timeline)))
  end.

(** The object [getChangesSummary] returns. *)
Record Changes := mkChanges {
  decisions : Z;
  codeChanges : Z;
  planUpdates : Z;
  userEdits : Z;
  explanations : Z;
  alternatives : Z;
  changed_nodes : list TimelineNode
}.

(** One turn of the counting loop: the [switch] on the type of the node. *)
Definition tally (changes : Changes) (node : TimelineNode) : Changes :=
  let '(mkChanges d c p u e a l) := changes in
  match node_type node with
  | decision => mkChanges (d + 1) c p u e a l
  | code => mkChanges d (c + 1) p u e a l
  | plan => mkChanges d c (p + 1) u e a l
  | user_edit => mkChanges d c p (u + 1) e a l
  | explanation => mkChanges d c p u (e + 1) a l
  | alternative => mkChanges d c p u e (a + 1) l
  end.

(** [getChangesSummary(projectId, startNodeId, endNodeId)].  The outer
    [option] is the fuel of the search, the inner one the [null] result. *)
Definition getChangesSummary (s : TimelineService) (pid startNodeId endNodeId : string)
    (fuel : nat) : option (option Changes) :=
  match getTimeline s pid with
  | None => Some None
  | Some timeline =>
      match nodes timeline !! startNodeId, nodes timeline !! endNodeId with
      | Some startNode, Some endNode =>
          match findPathBetweenNodes fuel timeline startNodeId endNodeId with
          | None => None
          | Some None => Some None
          | Some (Some pathToEnd) =>
              Some (Some (foldl tally
                            (mkChanges 0 0 0 0 0 0 (drop 1 pathToEnd))
                            (drop 1 pathToEnd)))
          end
      | _, _ => Some None
      end
  end.

(** ** Histories of a service *)

(** The operation replaces the timeline of project [pid]. *)
Definition recreates (pid : string) (op : Op) : Prop :=
  match op with
  | OpCreateTimeline q _ _ _ _ _ => q = pid
  | _ => False
  end.


(** A project with a node added on a fork, beside an empty second project. *)
Definition busy_ops : list Op :=
  (forked_ops ++
   [ OpAddNode "P1" sample_data "n1" 2 2 "1970-01-01T00:00:00.002Z";
     OpCreateCheckpoint "P1" "before";
     OpCreateTimeline "P2" "other" "c0" 3 "m0" 3 ])%list.

Definition busy_service : TimelineService := run busy_ops (new_service None).

(** Every checkpoint names a stored node. *)
Definition checkpoints_ok (tl : Timeline) : Prop :=
  ∀ x k, checkpoints tl !! x = Some k → is_Some (nodes tl !! k).

(** The test of [createAutoCheckpointIfNeeded], on the clock read [now] and
    the latest checkpoint time [latest]. *)
Definition checkpoint_due (opts : TimelineOptions) (now latest : Z) : bool :=
  match autoCheckpointInterval opts with
  | None => false
  | Some interval =>
      if interval =? 0 then false else now - latest >=? interval * (1000 * 60)
  end.

(** ** Searching the node graph *)

(** A bound on the work left to the search: two units per stored node and
    one per child link. *)
Definition store_weight (nds : gmap string TimelineNode) : nat :=
  sum_list_with (fun kv : string * TimelineNode => length (childrenIds kv.2) + 2)%nat
                (map_to_list nds).

(** Each node of the list is followed by one of its children or by its
    parent. *)
Fixpoint stepwise (l : list TimelineNode) : Prop :=
  match l with
  | x :: (y :: _) as r =>
      (node_id y ∈ childrenIds x ∨ parentId x = Some (node_id y)) ∧ stepwise r
  | _ => True
  end.

(** A path of stored nodes that starts at [start] and moves along links. *)
Definition walk_from (nds : gmap string TimelineNode) (start : string)
    (path : list TimelineNode) : Prop :=
  (∃ first, head path = Some first ∧ node_id first = start) ∧
  (∀ x, x ∈ path → nds !! node_id x = Some x) ∧
  stepwise path.

(** The search may go from [u] to [v]: a child of [u], or its parent. *)
Definition adjacent (nds : gmap string TimelineNode) (u v : string) : Prop :=
  ∃ nu, nds !! u = Some nu ∧
        (v ∈ childrenIds nu ∨ (parentId nu = Some v ∧ truthy v = true)).

(** What the search keeps true of an entry [(k, path)] of its queue. *)
Definition entry_ok (nds : gmap string TimelineNode) (start : string)
    (entry : string * list TimelineNode) : Prop :=
  (entry.2 = [] ∧ entry.1 = start) ∨
  (walk_from nds start entry.2 ∧
   ∃ l, last entry.2 = Some l ∧
        (entry.1 ∈ childrenIds l ∨ parentId l = Some entry.1)).

(** At most one stored node has no parent. *)
Definition single_root (nds : gmap string TimelineNode) : Prop :=
  ∀ k1 n1 k2 n2, nds !! k1 = Some n1 → nds !! k2 = Some n2 →
                 parentId n1 = None → parentId n2 = None → k1 = k2.

(** What the search keeps true while the end node is not found: the end
    node is not visited, every neighbour of a visited node is visited or
    waiting in the queue, and the end node can be reached from a node that
    is visited or waiting. *)
Definition search_ok (nds : gmap string TimelineNode) (e : string)
    (queue : list (string * list TimelineNode)) (visited : gset string) : Prop :=
  (e ∉ visited) ∧
  (∀ u v, u ∈ visited → adjacent nds u v → v ∈ visited ∨ v ∈ (queue.*1)) ∧
  (∃ u, (u ∈ visited ∨ u ∈ (queue.*1)) ∧ rtc (adjacent nds) u e).

(** The number of nodes of type [t] in a list, as a JavaScript number. *)
Definition count_type (t : NodeType) (l : list TimelineNode) : Z :=
  Z.of_nat (length (filter (fun n => node_type n = t) l)).

(** ** Walking down through first children *)

(** Each node of the list is followed by its first child. *)
Fixpoint descends (l : list TimelineNode) : Prop :=
  match l with
  | x :: (y :: _) as r => head (childrenIds x) = Some (node_id y) ∧ descends r
  | _ => True
  end.

(** No step number exceeds the number of stored nodes. *)
Definition steps_bounded (nds : gmap string TimelineNode) : Prop :=
  ∀ k n, nds !! k = Some n → stepNumber n ≤ Z.of_nat (size nds).

(** [path] is the alternative that starts at the child [c]: it begins with
    the node [c] names, goes down through first children, consists of
    stored nodes and ends at a node without children. *)
Definition alternative_of (nds : gmap string TimelineNode) (c : string)
    (path : list TimelineNode) : Prop :=
  (∃ cn, head path = Some cn ∧ node_id cn = c) ∧
  descends path ∧
  (∀ x, x ∈ path → nds !! node_id x = Some x) ∧
  (∃ leaf, last path = Some leaf ∧ childrenIds leaf = []).

(** A project whose root has two children, the second with a child of its
    own. *)
Definition branching_ops : list Op :=
  [ OpCreateTimeline "P1" "demo" "b0" 0 "n0" 0;
    OpAddNode "P1" sample_data "n1" 1 1 "1970-01-01T00:00:00.001Z";
    OpNavigateToNode "P1" "n0";
    OpAddNode "P1" sample_data "n2" 2 2 "1970-01-01T00:00:00.002Z";
    OpAddNode "P1" sample_data "n3" 3 3 "1970-01-01T00:00:00.003Z" ].

Definition branching_service : TimelineService :=
  run branching_ops (new_service None).

(** ** The graph view *)

(** The number of child links in a node store. *)
Definition edge_total (nds : gmap string TimelineNode) : nat :=
  sum_list_with (fun kv : string * TimelineNode => length (childrenIds kv.2))
                (map_to_list nds).

(** A history is a tree: it has one child link less than it has nodes. *)
Definition edges_counted (nds : gmap string TimelineNode) : Prop :=
  (edge_total nds + 1 = size nds)%nat.

(** The characters an automatic checkpoint name is rid of. *)
Definition colon_or_dot (c : Ascii.ascii) : Prop :=
  c = Ascii.ascii_of_nat 58 ∨ c = Ascii.ascii_of_nat 46.

(** The characters of a string. *)
Fixpoint chars (x : string) : list Ascii.ascii :=
  match x with
  | EmptyString => []
  | String c r => c :: chars r
  end.

(** ** Where branches come from *)


(** A service configured with [maxBranches: 0], holding one project. *)
Definition zero_cap_service : TimelineService :=
  run [ OpCreateTimeline "P1" "demo" "b0" 0 "n0" 0 ]
      (new_service (Some (mkPartial (Some (Some 0)) None None))).

(** The entries [getVisualizationData] builds from a stored node and from
    a stored branch: the two callbacks it passes to [map]. *)
Definition vis_node_of (tl : Timeline) (node : TimelineNode) : VisNode :=
  mkVisNode (node_id node) (title node) (node_type node) (branchId node)
            (stepNumber node)
            (bool_decide (node_id node = activeNodeId tl)).

Definition vis_branch_of (tl : Timeline) (branch : TimelineBranch) : VisBranch :=
  mkVisBranch (branch_id branch) (branch_name branch)
              (bool_decide (branch_id branch = activeBranchId tl))
              (parentBranchId branch).

(** * Proofs *)

(** ** The local view agrees with the service *)

Lemma service_eta s m : m = timelines s → set_timelines m s = s.
Proof. intros ->. by destruct s. Qed.

Lemma partial_alter_same {A} (g : option A → option A) (m : gmap string A) i :
  g (m !! i) = m !! i → partial_alter g i m = m.
Proof.
  intros Hg. apply map_eq. intros j. rewrite lookup_partial_alter.
  case_decide; [by subst j|done].
Qed.

Lemma partial_alter_to_insert {A} (g : option A → option A) (m : gmap string A) i y :
  g (m !! i) = Some y → partial_alter g i m = <[i := y]> m.
Proof.
  intros Hg. apply map_eq. intros j. rewrite lookup_partial_alter, lookup_insert.
  case_decide; [by subst j|done].
Qed.

Ltac unchanged_slot E :=
  symmetry; apply service_eta;
  first [ apply partial_alter_same; rewrite E; reflexivity
        | apply insert_id; exact E ].

Lemma createCheckpoint_local s pid x tl :
  timelines s !! pid = Some tl →
  (createCheckpoint s pid x).1
  = set_timelines (<[pid := tl_createCheckpoint x tl]> (timelines s)) s.
Proof. intros E. unfold createCheckpoint, getTimeline. by rewrite E. Qed.

Lemma auto_local s pid tl now iso :
  timelines s !! pid = Some tl → projectId tl = pid →
  createAutoCheckpointIfNeeded s tl now iso
  = set_timelines (<[pid := tl_auto (options s) now iso tl]> (timelines s)) s.
Proof.
  intros E Hp. unfold createAutoCheckpointIfNeeded, tl_auto.
  destruct (autoCheckpointInterval (options s)) as [i|]; [|unchanged_slot E].
  destruct (i =? 0); [unchanged_slot E|].
  destruct (_ >=? _); [|unchanged_slot E].
  rewrite Hp. by apply createCheckpoint_local.
Qed.

Lemma navigateToNode_local s pid k :
  (navigateToNode s pid k).1
  = set_timelines (partial_alter (fmap (tl_navigateToNode k)) pid (timelines s)) s.
Proof.
  unfold navigateToNode, getTimeline.
  destruct (timelines s !! pid) as [tl|] eqn:E; simpl; [|unchanged_slot E].
  rewrite (partial_alter_to_insert _ _ _ (tl_navigateToNode k tl));
    [|by rewrite E].
  unfold tl_navigateToNode.
  destruct (nodes tl !! k) as [n|]; simpl; [|unchanged_slot E].
  destruct (branches tl !! branchId n); simpl; [done|unchanged_slot E].
Qed.

Lemma exec_local s op :
  keyed s →
  exec op s
  = set_timelines
      (partial_alter (tl_exec (options s) op) (op_pid op) (timelines s)) s.
Proof.
  intros Hk. destruct op; simpl.
  - unfold createTimeline. simpl. f_equal.
  - unfold addNode, getTimeline.
    destruct (timelines s !! pid) as [tl|] eqn:E; simpl; [|unchanged_slot E].
    rewrite (partial_alter_to_insert _ _ _
               (tl_addNode (options s) nodeData newNodeId ts now iso tl));
      [|by rewrite E].
    unfold tl_addNode.
    destruct (branches tl !! activeBranchId tl) as [ab|]; simpl;
      [|unchanged_slot E].
    destruct (nodes tl !! activeNodeId tl) as [an|]; simpl;
      [|unchanged_slot E].
    erewrite auto_local; [|apply lookup_insert_eq|apply (Hk _ _ E)].
    simpl. by rewrite insert_insert_eq.
  - apply navigateToNode_local.
  - unfold createBranch, getTimeline.
    destruct (timelines s !! pid) as [tl|] eqn:E; simpl; [|unchanged_slot E].
    rewrite (partial_alter_to_insert _ _ _
               (tl_createBranch (options s) branchName branchDescription
                  newBranchId createdAt tl)); [|by rewrite E].
    unfold tl_createBranch.
    destruct (nodes tl !! activeNodeId tl) as [an|]; simpl;
      [|unchanged_slot E].
    destruct (_ >=? _); simpl; [unchanged_slot E|done].
  - unfold createCheckpoint, getTimeline.
    destruct (timelines s !! pid) as [tl|] eqn:E; simpl; [|unchanged_slot E].
    by rewrite (partial_alter_to_insert _ _ _ (tl_createCheckpoint checkpointName tl));
      [|rewrite E].
  - unfold navigateToCheckpoint, getTimeline.
    destruct (timelines s !! pid) as [tl|] eqn:E; simpl; [|unchanged_slot E].
    rewrite (partial_alter_to_insert _ _ _
               (tl_navigateToCheckpoint checkpointName tl)); [|by rewrite E].
    unfold tl_navigateToCheckpoint.
    destruct (checkpoints tl !! checkpointName) as [k|]; simpl;
      [|unchanged_slot E].
    destruct (truthy k); simpl; [|unchanged_slot E].
    rewrite navigateToNode_local.
    by rewrite (partial_alter_to_insert _ _ _ (tl_navigateToNode k tl));
      [|rewrite E].
Qed.

(** ** Lookups after an insertion and after a fork *)

Section inserted.
Context (nodeData : NodeData) (v : string) (ts : Z)
        (ab : TimelineBranch) (an : TimelineNode) (tl : Timeline).
Hypothesis Hwf : well_formed tl.
Hypothesis Hab : branches tl !! activeBranchId tl = Some ab.
Hypothesis Han : nodes tl !! activeNodeId tl = Some an.
Hypothesis Hv : truthy v = true.
Hypothesis Hfresh : nodes tl !! v = None.

Lemma inserted_nodes :
  nodes (tl_inserted nodeData v ts ab an tl) = <[v := (inserted_node nodeData v ts an tl)]>
                (<[activeNodeId tl := push_child v an]> (nodes tl)).
Proof.
  unfold tl_inserted, inserted_node. simpl.
  destruct (h_key _ _ (wf_history _ Hwf) _ _ Han) as [-> _].
  by rewrite insert_insert_eq.
Qed.

Lemma inserted_branches :
  branches (tl_inserted nodeData v ts ab an tl) = <[activeBranchId tl := push_nodeId v ab]> (branches tl).
Proof.
  unfold tl_inserted. simpl.
  rewrite (wf_branch_key _ Hwf _ _ Hab). by rewrite insert_insert_eq.
Qed.

Lemma inserted_active_ne : activeNodeId tl ≠ v.
Proof. intros E. rewrite E in Han. congruence. Qed.

(** An old node is still there, with one more child when it is the
    cursor. *)
Lemma inserted_old k n :
  nodes tl !! k = Some n →
  k ≠ v ∧
  ∃ n', nodes (tl_inserted nodeData v ts ab an tl) !! k = Some n' ∧ node_id n' = node_id n ∧
        parentId n' = parentId n ∧ branchId n' = branchId n ∧
        stepNumber n' = stepNumber n ∧
        (∀ c, c ∈ childrenIds n → c ∈ childrenIds n') ∧
        (k = activeNodeId tl → v ∈ childrenIds n').
Proof.
  intros Hk. assert (k ≠ v) as Hne by (intros ->; congruence).
  split; [done|]. rewrite inserted_nodes, lookup_insert_ne by done.
  destruct (decide (k = activeNodeId tl)) as [->|Hka].
  - rewrite lookup_insert_eq. rewrite Han in Hk. injection Hk as <-.
    eexists; split; [done|]. simpl. repeat split; try done.
    + intros c Hc. apply elem_of_app. by left.
    + intros _. apply elem_of_app. right. by apply list_elem_of_singleton.
  - rewrite lookup_insert_ne by done. eexists; split; [done|].
    repeat split; done.
Qed.

(** A node of the new store is the new node or an old one. *)
Lemma inserted_new k n' :
  nodes (tl_inserted nodeData v ts ab an tl) !! k = Some n' →
  (k = v ∧ n' = (inserted_node nodeData v ts an tl)) ∨
  (k ≠ v ∧ ∃ n, nodes tl !! k = Some n ∧ node_id n' = node_id n ∧
      parentId n' = parentId n ∧ branchId n' = branchId n ∧
      stepNumber n' = stepNumber n ∧
      (∀ c, c ∈ childrenIds n' → c ∈ childrenIds n ∨
                                  (c = v ∧ k = activeNodeId tl))).
Proof.
  rewrite inserted_nodes. intros Hk.
  destruct (decide (k = v)) as [->|Hne].
  - rewrite lookup_insert_eq in Hk. left. split; congruence.
  - right. split; [done|]. rewrite lookup_insert_ne in Hk by done.
    destruct (decide (k = activeNodeId tl)) as [->|Hka].
    + rewrite lookup_insert_eq in Hk. injection Hk as <-.
      exists an. simpl. repeat split; try done.
      intros c [Hc|Hc]%elem_of_app; [by left|].
      apply list_elem_of_singleton in Hc. by right.
    + rewrite lookup_insert_ne in Hk by done. exists n'.
      repeat split; try done. intros c Hc. by left.
Qed.

Lemma inserted_branch_old k b :
  branches tl !! k = Some b →
  ∃ b', branches (tl_inserted nodeData v ts ab an tl) !! k = Some b' ∧ branch_id b' = branch_id b ∧
        isActive b' = isActive b ∧ branchPoint b' = branchPoint b ∧
        parentBranchId b' = parentBranchId b ∧
        (∀ c, c ∈ nodeIds b → c ∈ nodeIds b') ∧
        (k = activeBranchId tl → v ∈ nodeIds b').
Proof.
  intros Hk. rewrite inserted_branches.
  destruct (decide (k = activeBranchId tl)) as [->|Hne].
  - rewrite lookup_insert_eq. rewrite Hab in Hk. injection Hk as <-.
    eexists; split; [done|]. simpl. repeat split; try done.
    + intros c Hc. apply elem_of_app. by left.
    + intros _. apply elem_of_app. right. by apply list_elem_of_singleton.
  - rewrite lookup_insert_ne by done. eexists; split; [done|].
    repeat split; done.
Qed.

Lemma inserted_branch_new k b' :
  branches (tl_inserted nodeData v ts ab an tl) !! k = Some b' →
  ∃ b, branches tl !! k = Some b ∧ branch_id b' = branch_id b ∧
       isActive b' = isActive b ∧ branchPoint b' = branchPoint b ∧
       parentBranchId b' = parentBranchId b ∧
       (∀ c, c ∈ nodeIds b' → c ∈ nodeIds b ∨
                               (c = v ∧ k = activeBranchId tl)).
Proof.
  rewrite inserted_branches. intros Hk.
  destruct (decide (k = activeBranchId tl)) as [->|Hne].
  - rewrite lookup_insert_eq in Hk. injection Hk as <-.
    exists ab. simpl. repeat split; try done.
    intros c [Hc|Hc]%elem_of_app; [by left|].
    apply list_elem_of_singleton in Hc. by right.
  - rewrite lookup_insert_ne in Hk by done. exists b'.
    repeat split; try done. intros c Hc. by left.
Qed.
End inserted.

(** ** Insertion keeps a timeline well-formed *)

Lemma inserted_well_formed nodeData v ts ab an tl :
  well_formed tl →
  branches tl !! activeBranchId tl = Some ab →
  nodes tl !! activeNodeId tl = Some an →
  truthy v = true → nodes tl !! v = None →
  well_formed (tl_inserted nodeData v ts ab an tl).
Proof.
  intros Hwf Hab Han Hv Hfresh.
  pose proof (inserted_old nodeData v ts ab an tl Hwf Han Hfresh) as Hold.
  pose proof (inserted_new nodeData v ts ab an tl Hwf Han) as Hnew.
  pose proof (inserted_branch_old nodeData v ts ab an tl Hwf Hab) as Hbold.
  pose proof (inserted_branch_new nodeData v ts ab an tl Hwf Hab) as Hbnew.
  pose proof (inserted_nodes nodeData v ts ab an tl Hwf Han) as Hnodes.
  set (tl' := tl_inserted nodeData v ts ab an tl) in *.
  assert (activeNodeId tl' = v) as Hact by done.
  assert (activeBranchId tl' = activeBranchId tl) as Hactb by done.
  assert (nodes tl' !! v =
          Some (inserted_node nodeData v ts an tl)) as Hvn
    by (rewrite Hnodes; apply lookup_insert_eq).
  destruct Hwf as [Hh Hbk Hone Hlinks Hcur Hmem].
  destruct (Hold _ _ Han) as (_ & an' & Han' & Hid' & _ & _ & Hstep' & _ & Hvin).
  specialize (Hvin eq_refl).
  destruct (Hbold _ _ Hab) as (ab' & Hab' & _ & _ & _ & _ & _ & Hvinb).
  specialize (Hvinb eq_refl).
  pose proof (proj1 (h_key _ _ Hh _ _ Han)) as Hanid.
  split.
  - (* history *)
    split.
    + intros k n' Hk. destruct (Hnew _ _ Hk) as [[-> ->]|(Hne & n & Hn & Hid & _)].
      * done.
      * rewrite Hid. exact (h_key _ _ Hh _ _ Hn).
    + rewrite Hact, Hvn. by eexists.
    + intros k n' p Hk Hp.
      destruct (Hnew _ _ Hk) as [[-> ->]|(Hne & n & Hn & _ & Hpar & _ & Hst & _)].
      * simpl in Hp. injection Hp as <-. exists an'. split; [done|].
        simpl. by rewrite Hstep'.
      * rewrite Hpar in Hp. destruct (h_parent _ _ Hh _ _ _ Hn Hp) as (pn & Hpn & Hs).
        destruct (Hold _ _ Hpn) as (_ & pn' & Hpn' & _ & _ & _ & Hst' & _).
        exists pn'. split; [done|]. by rewrite Hst, Hst'.
    + intros k n' Hk Hp.
      destruct (Hnew _ _ Hk) as [[-> ->]|(Hne & n & Hn & _ & Hpar & _ & Hst & _)].
      * done.
      * rewrite Hst. rewrite Hpar in Hp. exact (h_root _ _ Hh _ _ Hn Hp).
    + intros k n' Hk.
      destruct (Hnew _ _ Hk) as [[-> ->]|(Hne & n & Hn & _ & _ & _ & Hst & _)].
      * simpl. pose proof (h_pos _ _ Hh _ _ Han). lia.
      * rewrite Hst. exact (h_pos _ _ Hh _ _ Hn).
  - (* branch keys *)
    intros k b' Hk. destruct (Hbnew _ _ Hk) as (b & Hb & -> & _). by apply Hbk.
  - (* one active *)
    destruct Hone as (ka & ba & Hka & Hact1 & Huniq).
    destruct (Hbold _ _ Hka) as (ba' & Hba' & _ & Hia & _).
    exists ka, ba'. split; [done|]. split; [congruence|].
    intros k' b' Hk' Hi'. destruct (Hbnew _ _ Hk') as (b & Hb & _ & Hi & _).
    apply (Huniq _ _ Hb). congruence.
  - (* links *)
    destruct Hlinks as [Hup Hdown]. split.
    + intros k n' p Hk Hp.
      destruct (Hnew _ _ Hk) as [[-> ->]|(Hne & n & Hn & Hid & Hpar & _)].
      * simpl in Hp. injection Hp as <-. exists an'. simpl.
        split; [done|]. split; [congruence|done].
      * rewrite Hpar in Hp. destruct (Hup _ _ _ Hn Hp) as (pn & Hpn & Hpid & Hin).
        destruct (Hold _ _ Hpn) as (_ & pn' & Hpn' & Hpid' & _ & _ & _ & Hsub & _).
        exists pn'. split; [done|]. split; [congruence|]. rewrite Hid. by apply Hsub.
    + intros k n' c Hk Hc.
      destruct (Hnew _ _ Hk) as [[-> ->]|(Hne & n & Hn & Hid & _ & _ & _ & Hch)].
      * simpl in Hc. by apply elem_of_nil in Hc.
      * destruct (Hch _ Hc) as [Hc'|[-> ->]].
        -- destruct (Hdown _ _ _ Hn Hc') as (cn & Hcn & Hcp).
           destruct (Hold _ _ Hcn) as (_ & cn' & Hcn' & _ & Hpar' & _).
           exists cn'. split; [done|]. congruence.
        -- eexists. split; [exact Hvn|]. simpl. congruence.
  - (* cursor *)
    exists (inserted_node nodeData v ts an tl), ab'.
    rewrite Hact, Hactb. repeat split; try done. by left.
  - (* membership *)
    destruct Hmem as (Hown & Hin & Hbp). split; [|split].
    + intros k n' Hk.
      destruct (Hnew _ _ Hk) as [[-> ->]|(Hne & n & Hn & _ & _ & Hbr & _)].
      * simpl. by exists ab'.
      * rewrite Hbr. destruct (Hown _ _ Hn) as (b & Hb & Hkb).
        destruct (Hbold _ _ Hb) as (b' & Hb' & _ & _ & _ & _ & Hsub & _).
        exists b'. split; [done|]. by apply Hsub.
    + intros kb b' k Hkb Hk.
      destruct (Hbnew _ _ Hkb) as (b & Hb & _ & _ & Hpt & _ & Hids).
      destruct (Hids _ Hk) as [Hk'|[-> ->]].
      * destruct (Hin _ _ _ Hb Hk') as (n & Hn & Hcase).
        destruct (Hold _ _ Hn) as (_ & n' & Hn' & _ & _ & Hbr & _).
        exists n'. split; [done|]. rewrite Hbr, Hpt. done.
      * eexists. split; [exact Hvn|]. by left.
    + intros kb b' p Hkb Hp.
      destruct (Hbnew _ _ Hkb) as (b & Hb & _ & _ & Hpt & _).
      rewrite Hpt in Hp. destruct (Hbp _ _ _ Hb Hp) as (pn & Hpn & Hne).
      destruct (Hold _ _ Hpn) as (_ & pn' & Hpn' & _ & _ & Hbr & _).
      exists pn'. split; [done|]. by rewrite Hbr.
Qed.

(** ** A fork keeps a timeline well-formed *)

Lemma deactivate_others_lookup keep bs k :
  deactivate_others keep bs !! k
  = (λ b, if decide (k = keep) then b else set_isActive false b) <$> bs !! k.
Proof.
  unfold deactivate_others. rewrite map_lookup_imap.
  by destruct (bs !! k).
Qed.

Lemma forked_lookup name desc v c an tl k :
  branches (tl_forked name desc v c an tl) !! k
  = if decide (k = v)
    then Some (mkBranch v name desc c [node_id an] true
                 (Some (branchId an)) (Some (node_id an)))
    else set_isActive false <$> branches tl !! k.
Proof.
  unfold tl_forked. simpl. rewrite deactivate_others_lookup.
  destruct (decide (k = v)) as [->|Hne].
  - by rewrite lookup_insert_eq.
  - rewrite lookup_insert_ne by done. by destruct (branches tl !! k).
Qed.

Lemma forked_lookup_old name desc v c an tl k b :
  branches tl !! v = None → branches tl !! k = Some b →
  branches (tl_forked name desc v c an tl) !! k = Some (set_isActive false b).
Proof.
  intros Hf Hk. rewrite forked_lookup.
  destruct (decide (k = v)) as [->|]; [congruence|]. by rewrite Hk.
Qed.

Lemma forked_well_formed name desc v c an tl :
  well_formed tl →
  nodes tl !! activeNodeId tl = Some an →
  branches tl !! v = None →
  well_formed (tl_forked name desc v c an tl).
Proof.
  intros [Hh Hbk Hone Hlinks Hcur Hmem] Han Hfresh.
  pose proof (forked_lookup name desc v c an tl) as Hlk.
  pose proof (forked_lookup_old name desc v c an tl) as Hlo.
  set (tl' := tl_forked name desc v c an tl) in *.
  pose proof (proj1 (h_key _ _ Hh _ _ Han)) as Hanid.
  destruct Hmem as (Hown & Hin & Hbp).
  assert (Hlv := Hlk v). rewrite decide_True in Hlv by done.
  split; try done.
  - intros k b Hk. rewrite Hlk in Hk. destruct (decide (k = v)) as [->|].
    + by injection Hk as <-.
    + destruct (branches tl !! k) as [b0|] eqn:E; [|done].
      injection Hk as <-. simpl. by apply Hbk.
  - eexists v, _. split; [exact Hlv|]. split; [done|].
    intros k' b' Hk' Hi. rewrite Hlk in Hk'.
    destruct (decide (k' = v)); [done|].
    destruct (branches tl !! k'); [|done]. injection Hk' as <-. done.
  - exists an. eexists. split; [exact Han|]. split; [exact Hlv|].
    simpl. split; [rewrite Hanid; by apply list_elem_of_singleton|].
    right. by rewrite Hanid.
  - split; [|split].
    + intros k n Hn. destruct (Hown _ _ Hn) as (b & Hb & Hkb).
      exists (set_isActive false b). split; [by apply Hlo|done].
    + intros kb b k Hkb Hk. rewrite Hlk in Hkb.
      destruct (decide (kb = v)) as [->|].
      * injection Hkb as <-. simpl in *.
        apply list_elem_of_singleton in Hk. subst k.
        exists an. rewrite Hanid. split; [done|]. by right.
      * destruct (branches tl !! kb) as [b0|] eqn:E; [|done].
        injection Hkb as <-. simpl in *. by apply (Hin _ _ _ E).
    + intros kb b p Hkb Hp. rewrite Hlk in Hkb.
      destruct (decide (kb = v)) as [->|].
      * injection Hkb as <-. simpl in Hp. injection Hp as <-.
        exists an. rewrite Hanid. split; [done|].
        destruct (Hown _ _ Han) as (b0 & Hb0 & _). intros E.
        rewrite E in Hb0. congruence.
      * destruct (branches tl !! kb) as [b0|] eqn:E; [|done].
        injection Hkb as <-. simpl in Hp. by apply (Hbp _ _ _ E).
Qed.

(** ** Cursor moves and checkpoints *)

Lemma navigate_well_formed k tl :
  well_formed tl → well_formed (tl_navigateToNode k tl).
Proof.
  intros Hwf. unfold tl_navigateToNode.
  destruct (nodes tl !! k) as [n|] eqn:Hn; [|done].
  destruct (branches tl !! branchId n) as [b|] eqn:Hb; [|done].
  destruct Hwf as [Hh Hbk Hone Hlinks Hcur Hmem].
  split; try done.
  - destruct Hh; split; try done; simpl; by rewrite Hn.
  - exists n, b. simpl. split; [done|]. split; [done|]. split; [|by left].
    destruct Hmem as (Hown & _). destruct (Hown _ _ Hn) as (b' & Hb' & Hin).
    congruence.
Qed.

Lemma checkpoints_well_formed cps tl :
  well_formed tl → well_formed (set_checkpoints cps tl).
Proof. by intros []. Qed.

Lemma auto_well_formed opts now iso tl :
  well_formed tl → well_formed (tl_auto opts now iso tl).
Proof.
  intros Hwf. unfold tl_auto.
  destruct (autoCheckpointInterval opts) as [i|]; [|done].
  destruct (i =? 0); [done|]. destruct (_ >=? _); [|done].
  by apply checkpoints_well_formed.
Qed.

Lemma initial_well_formed pid d b c n t :
  truthy n = true → well_formed (initial_timeline pid d b c n t).
Proof.
  intros Hn. unfold initial_timeline, createTimeline. simpl.
  split; simpl.
  - split; simpl.
    + intros k x [<- <-]%lookup_singleton_Some. done.
    + rewrite lookup_singleton_eq. by eexists.
    + intros k x p [<- <-]%lookup_singleton_Some. done.
    + intros k x [<- <-]%lookup_singleton_Some. done.
    + intros k x [<- <-]%lookup_singleton_Some. done.
  - intros k x [<- <-]%lookup_singleton_Some. done.
  - eexists b, _. split; [apply lookup_singleton_eq|]. split; [done|].
    by intros k' b' [<- <-]%lookup_singleton_Some.
  - split; simpl.
    + intros k x p [<- <-]%lookup_singleton_Some. done.
    + intros k x p [<- <-]%lookup_singleton_Some. simpl.
      intros H. by apply elem_of_nil in H.
  - eexists _, _. simpl. split; [apply lookup_singleton_eq|].
    split; [apply lookup_singleton_eq|]. simpl.
    split; [by apply list_elem_of_singleton|by left].
  - split; [|split]; simpl.
    + intros k x [<- <-]%lookup_singleton_Some. simpl.
      eexists. split; [apply lookup_singleton_eq|]. simpl.
      by apply list_elem_of_singleton.
    + intros kb x k [<- <-]%lookup_singleton_Some. simpl.
      intros ->%list_elem_of_singleton.
      eexists. split; [apply lookup_singleton_eq|]. by left.
    + intros kb x p [<- <-]%lookup_singleton_Some. done.
Qed.

(** ** Reachable states are well-formed *)

Lemma tl_exec_well_formed opts op tl :
  well_formed tl → tl_fresh op tl →
  ∃ tl', tl_exec opts op (Some tl) = Some tl' ∧ well_formed tl' ∧
         (projectId tl = op_pid op → projectId tl' = op_pid op).
Proof.
  intros Hwf Hf. destruct op; simpl in *.
  - eexists; split; [done|]. split; [by apply initial_well_formed|done].
  - eexists; split; [done|]. split; [|].
    + unfold tl_addNode.
      destruct (branches tl !! activeBranchId tl) as [ab|] eqn:Hab; [|done].
      destruct (nodes tl !! activeNodeId tl) as [an|] eqn:Han; [|done].
      destruct Hf. apply auto_well_formed. by apply inserted_well_formed.
    + unfold tl_addNode.
      destruct (branches tl !! activeBranchId tl) as [ab|]; [|done].
      destruct (nodes tl !! activeNodeId tl) as [an|]; [|done].
      unfold tl_auto. destruct (autoCheckpointInterval opts) as [i|]; [|done].
      destruct (i =? 0); [done|]. by destruct (_ >=? _).
  - eexists; split; [done|]. split; [by apply navigate_well_formed|].
    unfold tl_navigateToNode. destruct (nodes tl !! nodeId) as [n|]; [|done].
    by destruct (branches tl !! branchId n).
  - eexists; split; [done|]. unfold tl_createBranch.
    destruct (nodes tl !! activeNodeId tl) as [an|] eqn:Han; [|done].
    destruct (_ >=? _); [done|]. split; [by apply forked_well_formed|done].
  - eexists; split; [done|]. split; [by apply checkpoints_well_formed|done].
  - eexists; split; [done|]. unfold tl_navigateToCheckpoint.
    destruct (checkpoints tl !! checkpointName) as [k|]; [|done].
    destruct (truthy k); [|done]. split; [by apply navigate_well_formed|].
    unfold tl_navigateToNode. destruct (nodes tl !! k) as [n|]; [|done].
    by destruct (branches tl !! branchId n).
Qed.

Lemma service_ok_keyed s : service_ok s → keyed s.
Proof. intros H pid tl Hl. by destruct (H _ _ Hl). Qed.

Lemma uuid_fresh_local op s tl :
  uuid_fresh op s → timelines s !! op_pid op = Some tl → tl_fresh op tl.
Proof.
  destruct op; simpl; try done; unfold getTimeline.
  - intros [Hv Hf] E. rewrite E in Hf. done.
  - intros Hf E. by rewrite E in Hf.
Qed.

Lemma exec_service_ok op s :
  service_ok s → uuid_fresh op s → service_ok (exec op s).
Proof.
  intros Hs Hf. rewrite exec_local by by apply service_ok_keyed.
  intros pid tl'. simpl. rewrite lookup_partial_alter.
  case_decide as Hp; [subst pid|by apply Hs].
  destruct (timelines s !! op_pid op) as [tl|] eqn:E.
  - destruct (Hs _ _ E) as [Hpid Hwf].
    destruct (tl_exec_well_formed (options s) op tl Hwf
                (uuid_fresh_local _ _ _ Hf E)) as (tl2 & -> & Hwf2 & Hp2).
    intros [= <-]. split; [by apply Hp2|done].
  - destruct op; simpl in *; try done.
    intros [= <-]. split; [done|]. by apply initial_well_formed.
Qed.

Lemma reachable_service_ok s : reachable s → service_ok s.
Proof.
  induction 1 as [opts|s op _ IH Hf].
  - intros pid tl. destruct opts; simpl; by rewrite lookup_empty.
  - by apply exec_service_ok.
Qed.

Lemma reachable_well_formed s pid tl :
  reachable s → timelines s !! pid = Some tl → well_formed tl.
Proof. intros Hr Hl. by destruct (reachable_service_ok s Hr _ _ Hl). Qed.

(** ** Runs *)

Lemma reachable_run ops s : reachable s → fresh_run ops s → reachable (run ops s).
Proof.
  revert s. induction ops as [|op ops IH]; intros s Hr Hf; simpl in *; [done|].
  destruct Hf as [Hf Hfs]. apply IH; [by apply reach_step|done].
Qed.

Lemma forked_reachable : reachable forked_service.
Proof.
  apply reachable_run; [apply reach_new|]. vm_compute. repeat split.
Qed.

Lemma linear_reachable : reachable linear_service.
Proof.
  apply reachable_run; [apply reach_new|]. vm_compute. repeat split.
Qed.

(** ** What the operations return and store *)

Lemma createCheckpoint_frame s q x pid tl0 :
  timelines s !! pid = Some tl0 →
  ∃ tl', timelines (createCheckpoint s q x).1 !! pid = Some tl' ∧
         nodes tl' = nodes tl0 ∧ branches tl' = branches tl0 ∧
         activeNodeId tl' = activeNodeId tl0 ∧
         activeBranchId tl' = activeBranchId tl0.
Proof.
  intros E. unfold createCheckpoint, getTimeline.
  destruct (timelines s !! q) as [tq|] eqn:Eq; simpl; [|by exists tl0].
  destruct (decide (q = pid)) as [->|Hne].
  - rewrite lookup_insert_eq. eexists; split; [done|].
    rewrite E in Eq. by injection Eq as <-.
  - rewrite lookup_insert_ne by done. by exists tl0.
Qed.

Lemma auto_frame s tl now iso pid tl0 :
  timelines s !! pid = Some tl0 →
  ∃ tl', timelines (createAutoCheckpointIfNeeded s tl now iso) !! pid = Some tl' ∧
         nodes tl' = nodes tl0 ∧ branches tl' = branches tl0 ∧
         activeNodeId tl' = activeNodeId tl0 ∧
         activeBranchId tl' = activeBranchId tl0.
Proof.
  intros E. unfold createAutoCheckpointIfNeeded.
  destruct (autoCheckpointInterval (options s)) as [i|]; [|by exists tl0].
  destruct (i =? 0); [by exists tl0|].
  destruct (_ >=? _); [|by exists tl0]. by apply createCheckpoint_frame.
Qed.

(** What a successful [addNode] returns and stores. *)
Lemma addNode_result s pid tl ab an nodeData v ts now iso :
  timelines s !! pid = Some tl →
  branches tl !! activeBranchId tl = Some ab →
  nodes tl !! activeNodeId tl = Some an →
  ∃ tl',
    (addNode s pid nodeData v ts now iso).2
    = Some (mkNode v ts (d_type nodeData) (d_title nodeData)
              (d_description nodeData) (d_content nodeData)
              (d_metadata nodeData) (Some (node_id an)) []
              (activeBranchId tl) (stepNumber an + 1)) ∧
    timelines (addNode s pid nodeData v ts now iso).1 !! pid = Some tl' ∧
    nodes tl' = nodes (tl_inserted nodeData v ts ab an tl) ∧
    branches tl' = branches (tl_inserted nodeData v ts ab an tl) ∧
    activeNodeId tl' = v ∧ activeBranchId tl' = activeBranchId tl.
Proof.
  intros E Hab Han. unfold addNode, getTimeline. rewrite E, Hab, Han.
  cbv zeta.
  match goal with
  | |- context [createAutoCheckpointIfNeeded ?s1 ?t1 now iso] =>
      destruct (auto_frame s1 t1 now iso pid t1) as (tl' & Hl & Hn & Hb & Ha & Hbr);
      [apply lookup_insert_eq|]
  end.
  exists tl'. cbn [fst snd]. split; [done|]. split; [exact Hl|].
  rewrite Hn, Hb, Ha, Hbr. done.
Qed.



(** * The properties of the timeline *)

(** ** The cursor and its branch *)




(** ** The active flag *)

(** What a successful [createBranch] returns and stores. *)
Lemma createBranch_success s pid name desc v c nb :
  (createBranch s pid name desc v c).1.2 = Some nb →
  ∃ tl an,
    timelines s !! pid = Some tl ∧
    nodes tl !! activeNodeId tl = Some an ∧
    nb = mkBranch v name desc c [node_id an] true (Some (branchId an))
                  (Some (node_id an)) ∧
    timelines (createBranch s pid name desc v c).1.1 !! pid
    = Some (tl_forked name desc v c an tl).
Proof.
  unfold createBranch, getTimeline.
  destruct (timelines s !! pid) as [tl|] eqn:E; [|done].
  destruct (nodes tl !! activeNodeId tl) as [an|] eqn:Han; [|done].
  destruct (_ >=? _); [done|]. simpl. intros [= <-].
  exists tl, an. repeat split; try done. apply lookup_insert_eq.
Qed.

(** C3: in every reachable state exactly one branch of a timeline carries
    [isActive = true].  [createBranch] forks whenever the timeline holds
    fewer branches than the cap in force: it then returns the new branch,
    stores it with the flag set, makes it the active branch and stores every
    other branch with the flag cleared; and whenever it returns a branch,
    the new branch is the only one with the flag set. *)
Theorem exactly_one_active_branch s pid tl :
  reachable s → timelines s !! pid = Some tl →
  (∃ k b, branches tl !! k = Some b ∧ isActive b = true ∧
          ∀ k' b', branches tl !! k' = Some b' → isActive b' = true → k' = k) ∧
  (∀ name desc v c nb,
     (createBranch s pid name desc v c).1.2 = Some nb →
     ∃ tl', timelines (createBranch s pid name desc v c).1.1 !! pid = Some tl' ∧
            branches tl' !! v = Some nb ∧ isActive nb = true ∧
            ∀ k b, branches tl' !! k = Some b → k ≠ v → isActive b = false) ∧
  (∀ name desc v c,
     Z.of_nat (size (branches tl)) < num_or (maxBranches (options s)) 10 →
     ∃ nb tl',
       (createBranch s pid name desc v c).1.2 = Some nb ∧
       timelines (createBranch s pid name desc v c).1.1 !! pid = Some tl' ∧
       activeBranchId tl' = v ∧
       branches tl' !! v = Some nb ∧ isActive nb = true ∧
       (∀ k b, branches tl !! k = Some b → k ≠ v →
               branches tl' !! k = Some (set_isActive false b)) ∧
       (∀ k b, branches tl' !! k = Some b → k ≠ v →
               isActive b = false ∧ is_Some (branches tl !! k))).
Proof.
  intros Hr Hl. pose proof (reachable_well_formed _ _ _ Hr Hl) as Hwf.
  split; [|split].
  - exact (wf_one_active _ Hwf).
  - intros name desc v c nb Hnb.
    destruct (createBranch_success _ _ _ _ _ _ _ Hnb) as (tl0 & an & _ & _ & -> & Hs).
    eexists. split; [exact Hs|]. split; [|split; [done|]].
    + rewrite forked_lookup. by rewrite decide_True.
    + intros k b Hk Hne. rewrite forked_lookup, decide_False in Hk by done.
      destruct (branches tl0 !! k); [|done]. by injection Hk as <-.
  - intros name desc v c Hlt.
    destruct (wf_cursor _ Hwf) as (an & ab & Han & _).
    assert (createBranch s pid name desc v c
            = (set_timelines (<[pid := tl_forked name desc v c an tl]> (timelines s)) s,
               Some (mkBranch v name desc c [node_id an] true
                       (Some (branchId an)) (Some (node_id an))), [])) as ->.
    { unfold createBranch, getTimeline. rewrite Hl, Han.
      destruct (Z.geb_spec (Z.of_nat (size (branches tl)))
                  (num_or (maxBranches (options s)) 10)) as [Hge|_]; [lia|done]. }
    eexists _, (tl_forked name desc v c an tl). cbn [fst snd].
    split; [done|]. split; [apply lookup_insert_eq|]. split; [done|].
    split; [by rewrite forked_lookup, decide_True|]. split; [done|]. split.
    + intros k b Hk Hne. rewrite forked_lookup, decide_False by done.
      by rewrite Hk.
    + intros k b Hk Hne. rewrite forked_lookup, decide_False in Hk by done.
      destruct (branches tl !! k) as [b0|]; [|done]. injection Hk as <-.
      split; [done|by eexists].
Qed.

Lemma exactly_one_active_branch_witness :
  let s := forked_service in
  let tl := timeline_of forked_service "P1" in
  (∃ k b, branches tl !! k = Some b ∧ isActive b = true ∧
          ∀ k' b', branches tl !! k' = Some b' → isActive b' = true → k' = k) ∧
  (∃ nb tl',
     (createBranch s "P1" "third" "another try" "b2" 7).1.2 = Some nb ∧
     timelines (createBranch s "P1" "third" "another try" "b2" 7).1.1 !! "P1"
     = Some tl' ∧
     activeBranchId tl' = "b2" ∧
     branches tl' !! "b2" = Some nb ∧ isActive nb = true ∧
     (∀ k b, branches tl !! k = Some b → k ≠ "b2" →
             branches tl' !! k = Some (set_isActive false b)) ∧
     (∀ k b, branches tl' !! k = Some b → k ≠ "b2" →
             isActive b = false ∧ is_Some (branches tl !! k))).
Proof.
  destruct (exactly_one_active_branch forked_service "P1"
              (timeline_of forked_service "P1") forked_reachable
              ltac:(vm_compute; reflexivity)) as (Hone & _ & Hfork).
  split; [exact Hone|]. apply Hfork. vm_compute. reflexivity.
Defined.

(** ** Parent and child links *)

(** C5: in every reachable state a node with a parent is listed among the
    children of that parent, which is stored under the identifier the node
    names; and every identifier among a node's children names a stored node
    whose parent is that node. *)
Theorem parent_child_consistent s pid tl :
  reachable s → timelines s !! pid = Some tl →
  (∀ k n p, nodes tl !! k = Some n → parentId n = Some p →
     ∃ pn, nodes tl !! p = Some pn ∧ node_id pn = p ∧
           node_id n ∈ childrenIds pn) ∧
  (∀ k n c, nodes tl !! k = Some n → c ∈ childrenIds n →
     ∃ cn, nodes tl !! c = Some cn ∧ node_id cn = c ∧
           parentId cn = Some (node_id n)).
Proof.
  intros Hr Hl. pose proof (reachable_well_formed _ _ _ Hr Hl) as Hwf.
  destruct (wf_links _ Hwf) as [Hup Hdown]. split; [exact Hup|].
  intros k n c Hn Hc. destruct (Hdown _ _ _ Hn Hc) as (cn & Hcn & Hp).
  exists cn. split; [done|]. split; [|done].
  exact (proj1 (h_key _ _ (wf_history _ Hwf) _ _ Hcn)).
Qed.

Lemma parent_child_consistent_witness :
  let tl := timeline_of linear_service "P1" in
  (∀ k n p, nodes tl !! k = Some n → parentId n = Some p →
     ∃ pn, nodes tl !! p = Some pn ∧ node_id pn = p ∧
           node_id n ∈ childrenIds pn) ∧
  (∀ k n c, nodes tl !! k = Some n → c ∈ childrenIds n →
     ∃ cn, nodes tl !! c = Some cn ∧ node_id cn = c ∧
           parentId cn = Some (node_id n)).
Proof.
  apply (parent_child_consistent linear_service "P1").
  - exact linear_reachable.
  - vm_compute. reflexivity.
Defined.

(** ** Branch membership *)

(** C6, as stated, fails: [createBranch] starts the node list of the new
    branch with the fork point, which stays in the list of its own branch. *)
Lemma node_in_two_branches_counterexample :
  reachable forked_service ∧
  ∃ tl b0 b1, timelines forked_service !! "P1" = Some tl ∧
              is_Some (nodes tl !! "n0") ∧
              branches tl !! "b0" = Some b0 ∧ branches tl !! "b1" = Some b1 ∧
              "b0" ≠ "b1" ∧ "n0" ∈ nodeIds b0 ∧ "n0" ∈ nodeIds b1.
Proof.
  split; [exact forked_reachable|].
  eexists _, _, _. split; [vm_compute; reflexivity|].
  split; [vm_compute; by eexists|].
  split; [vm_compute; reflexivity|]. split; [vm_compute; reflexivity|].
  split; [done|]. simpl. split; by apply list_elem_of_singleton.
Qed.

(** C6 (amended): in every reachable state a stored node is in the node
    list of the branch its [branchId] names, which was not forked at it,
    and every other branch whose node list holds it was forked at it (the
    node is that branch's [branchPoint]).  So a node is in the list of
    exactly one branch that was not forked at it. *)
Theorem node_in_own_branch s pid tl :
  reachable s → timelines s !! pid = Some tl →
  ∀ k n, nodes tl !! k = Some n →
    (∃ b, branches tl !! branchId n = Some b ∧ k ∈ nodeIds b ∧
          branchPoint b ≠ Some k) ∧
    (∀ kb b, branches tl !! kb = Some b → k ∈ nodeIds b →
       kb ≠ branchId n → branchPoint b = Some k).
Proof.
  intros Hr Hl k n Hn. pose proof (reachable_well_formed _ _ _ Hr Hl) as Hwf.
  destruct (wf_membership _ Hwf) as (Hown & Hin & Hbp). split.
  - destruct (Hown _ _ Hn) as (b & Hb & Hk). exists b. repeat split; try done.
    intros Hp. destruct (Hbp _ _ _ Hb Hp) as (pn & Hpn & Hne). congruence.
  - intros kb b Hb Hk Hne. destruct (Hin _ _ _ Hb Hk) as (n' & Hn' & [E|E]);
      [congruence|done].
Qed.

Lemma node_in_own_branch_witness :
  let tl := timeline_of forked_service "P1" in
  (∃ b, branches tl !! "b0" = Some b ∧ "n0" ∈ nodeIds b ∧
        branchPoint b ≠ Some "n0") ∧
  (∀ kb b, branches tl !! kb = Some b → "n0" ∈ nodeIds b →
     kb ≠ "b0" → branchPoint b = Some "n0").
Proof.
  apply (node_in_own_branch forked_service "P1"
           (timeline_of forked_service "P1") forked_reachable
           ltac:(vm_compute; reflexivity) "n0"
           (mkNode "n0" 0 plan "Project Initialization" "demo"
              "Project initialized with description: demo" ∅ None [] "b0" 1)).
  vm_compute. reflexivity.
Defined.

(** ** [addNode] *)

(** C4: when the active branch and the active node are stored (the node
    under its own identifier), [addNode] returns a node whose parent is the
    previous active node, whose branch is the active branch and whose step is
    the parent's step plus one; the node is stored, its identifier is
    appended to the node list of the active branch, and the cursor moves to
    it. *)
Theorem addNode_appends s pid tl ab an nodeData v ts now iso :
  timelines s !! pid = Some tl →
  branches tl !! activeBranchId tl = Some ab →
  nodes tl !! activeNodeId tl = Some an →
  node_id an = activeNodeId tl →
  ∃ n tl' ab',
    (addNode s pid nodeData v ts now iso).2 = Some n ∧
    node_id n = v ∧ parentId n = Some (activeNodeId tl) ∧
    branchId n = activeBranchId tl ∧ stepNumber n = stepNumber an + 1 ∧
    timelines (addNode s pid nodeData v ts now iso).1 !! pid = Some tl' ∧
    nodes tl' !! v = Some n ∧
    branches tl' !! activeBranchId tl = Some ab' ∧
    nodeIds ab' = (nodeIds ab ++ [v])%list ∧
    activeNodeId tl' = v ∧ activeBranchId tl' = activeBranchId tl.
Proof.
  intros E Hab Han Hid.
  destruct (addNode_result s pid tl ab an nodeData v ts now iso E Hab Han)
    as (tl' & Hres & Hl & Hn & Hb & Ha & Hbr).
  eexists _, tl', (push_nodeId v ab). split; [exact Hres|]. simpl.
  split; [done|]. split; [by rewrite Hid|]. split; [done|]. split; [done|].
  split; [exact Hl|]. rewrite Hn, Hb. simpl.
  split; [by rewrite lookup_insert_eq|]. split; [|done].
  destruct (decide (branch_id ab = activeBranchId tl)) as [Eb|Hne].
  - rewrite Eb. by rewrite lookup_insert_eq.
  - rewrite lookup_insert_ne by done. by rewrite lookup_insert_eq.
Qed.

Lemma addNode_appends_witness :
  let s := linear_service in
  let tl := timeline_of linear_service "P1" in
  ∃ n tl' ab',
    (addNode s "P1" sample_data "n4" 4 4 "x").2 = Some n ∧
    node_id n = "n4" ∧ parentId n = Some "n3" ∧
    branchId n = "b0" ∧ stepNumber n = 4 + 1 ∧
    timelines (addNode s "P1" sample_data "n4" 4 4 "x").1 !! "P1" = Some tl' ∧
    nodes tl' !! "n4" = Some n ∧
    branches tl' !! "b0" = Some ab' ∧
    nodeIds ab' = ["n0"; "n1"; "n2"; "n3"; "n4"] ∧
    activeNodeId tl' = "n4" ∧ activeBranchId tl' = "b0".
Proof.
  apply (addNode_appends linear_service "P1" (timeline_of linear_service "P1")
           (mkBranch "b0" "Main" "Main development branch" 0
              ["n0"; "n1"; "n2"; "n3"] true None None)
           (mkNode "n3" 3 plan "step" "a step" "text" ∅ (Some "n2") [] "b0" 4)
           sample_data "n4" 4 4 "x").
  - vm_compute. reflexivity.
  - vm_compute. reflexivity.
  - vm_compute. reflexivity.
  - reflexivity.
Defined.

(** ** The branch cap *)

(** C7, as stated, fails for a configured maximum of 0: the cap is read as
    [maxBranches || 10] and 0 is falsy, so a service configured with
    [maxBranches: 0] forks a timeline that already holds one branch, with no
    warning. *)
Lemma createBranch_zero_cap_counterexample :
  reachable zero_cap_service ∧
  maxBranches (options zero_cap_service) = Some 0 ∧
  size (branches (timeline_of zero_cap_service "P1")) = 1%nat ∧
  ∃ nb,
    (createBranch zero_cap_service "P1" "experiment" "try alt" "b1" 1).1.2
    = Some nb ∧
    (createBranch zero_cap_service "P1" "experiment" "try alt" "b1" 1).2 = [] ∧
    size (branches
            (timeline_of
               (createBranch zero_cap_service "P1" "experiment" "try alt" "b1" 1).1.1
               "P1")) = 2%nat.
Proof.
  split; [apply reachable_run; [apply reach_new|]; vm_compute; repeat split|].
  split; [reflexivity|]. split; [vm_compute; reflexivity|].
  eexists. split; [vm_compute; reflexivity|]. split; vm_compute; reflexivity.
Qed.

(** C7 (amended): when a timeline already holds as many branches as the cap
    in force ([maxBranches], or 10 when that is [undefined] or 0),
    [createBranch] returns [undefined] and the service is left as it was;
    with the active node stored, as it is in every reachable state, the
    failure is the one reported as the maximum being reached.  The cap in
    force is the configured maximum whenever that is a number other than 0,
    and without configuration it is 10. *)
Theorem createBranch_at_limit s pid tl name desc v c :
  timelines s !! pid = Some tl →
  num_or (maxBranches (options s)) 10 ≤ Z.of_nat (size (branches tl)) →
  (createBranch s pid name desc v c).1 = (s, None) ∧
  (is_Some (nodes tl !! activeNodeId tl) →
   (createBranch s pid name desc v c).2
   = [WarnMaxBranches (maxBranches (options s))]) ∧
  num_or (maxBranches (options (new_service None))) 10 = 10 ∧
  (reachable s →
   (createBranch s pid name desc v c).2
   = [WarnMaxBranches (maxBranches (options s))]) ∧
  (∀ m, maxBranches (options s) = Some m → m ≠ 0 →
        num_or (maxBranches (options s)) 10 = m).
Proof.
  intros E Hmax.
  assert (is_Some (nodes tl !! activeNodeId tl) →
          (createBranch s pid name desc v c).2
          = [WarnMaxBranches (maxBranches (options s))]) as Hwarn.
  { intros [an Han]. unfold createBranch, getTimeline. rewrite E, Han.
    destruct (Z.geb_spec (Z.of_nat (size (branches tl)))
                (num_or (maxBranches (options s)) 10)) as [_|Hlt]; [done|lia]. }
  split; [|split; [exact Hwarn|split; [done|split]]].
  - unfold createBranch, getTimeline. rewrite E.
    destruct (nodes tl !! activeNodeId tl) as [an|]; [|done].
    destruct (Z.geb_spec (Z.of_nat (size (branches tl)))
                (num_or (maxBranches (options s)) 10)) as [_|Hlt]; [done|lia].
  - intros Hr. apply Hwarn.
    destruct (wf_cursor _ (reachable_well_formed _ _ _ Hr E))
      as (an & _ & Han & _).
    by exists an.
  - intros m -> Hm. simpl. by destruct (Z.eqb_spec m 0).
Qed.

Lemma crowded_reachable : reachable crowded_service.
Proof.
  apply reachable_run; [apply reach_new|]. vm_compute. repeat split.
Qed.

Lemma createBranch_at_limit_witness :
  (createBranch crowded_service "P1" "eleventh" "one too many" "b10" 2).1
  = (crowded_service, None) ∧
  (is_Some (nodes (timeline_of crowded_service "P1")
            !! activeNodeId (timeline_of crowded_service "P1")) →
   (createBranch crowded_service "P1" "eleventh" "one too many" "b10" 2).2
   = [WarnMaxBranches (maxBranches (options crowded_service))]) ∧
  num_or (maxBranches (options (new_service None))) 10 = 10 ∧
  (createBranch crowded_service "P1" "eleventh" "one too many" "b10" 2).2
  = [WarnMaxBranches (maxBranches (options crowded_service))] ∧
  (∀ m, maxBranches (options crowded_service) = Some m → m ≠ 0 →
        num_or (maxBranches (options crowded_service)) 10 = m).
Proof.
  destruct (createBranch_at_limit crowded_service "P1"
              (timeline_of crowded_service "P1")
              "eleventh" "one too many" "b10" 2) as (H1 & H2 & H3 & H4 & H5).
  - vm_compute. reflexivity.
  - vm_compute. discriminate.
  - split; [exact H1|]. split; [exact H2|]. split; [exact H3|].
    split; [exact (H4 crowded_reachable)|exact H5].
Defined.

(** ** Navigation and the active flag *)

(** C10: [navigateToNode] writes the cursor and nothing else.  Whatever the
    state and the target, every timeline of the service keeps its branches
    with their [isActive] flags, its nodes, its checkpoints, its project and
    its main branch, no timeline is added, the options stay, and only the
    timeline of the project can get another cursor.  So, in a reachable
    state, after a move to a node of a branch whose flag is not set, the one
    branch with [isActive = true] is not the branch [activeBranchId]
    names. *)
Theorem navigateToNode_keeps_flags s pid k :
  (∀ q,
     match timelines s !! q with
     | Some tl0 =>
         ∃ tl', timelines (navigateToNode s pid k).1 !! q = Some tl' ∧
                branches tl' = branches tl0 ∧ nodes tl' = nodes tl0 ∧
                checkpoints tl' = checkpoints tl0 ∧
                projectId tl' = projectId tl0 ∧
                mainBranchId tl' = mainBranchId tl0 ∧
                (q ≠ pid → tl' = tl0)
     | None => timelines (navigateToNode s pid k).1 !! q = None
     end) ∧
  options (navigateToNode s pid k).1 = options s ∧
  (∀ tl n b,
     reachable s → timelines s !! pid = Some tl →
     nodes tl !! k = Some n → branches tl !! branchId n = Some b →
     isActive b = false →
     (navigateToNode s pid k).2 = true ∧
     ∃ tl',
       (navigateToNode s pid k).1
       = set_timelines (<[pid := tl']> (timelines s)) s ∧
       tl' = set_activeBranchId (branchId n) (set_activeNodeId k tl) ∧
       branches tl' = branches tl ∧ nodes tl' = nodes tl ∧
       checkpoints tl' = checkpoints tl ∧
       activeNodeId tl' = k ∧ activeBranchId tl' = branchId n ∧
       ∃ ka ba, branches tl' !! ka = Some ba ∧ isActive ba = true ∧
                (∀ k' b', branches tl' !! k' = Some b' → isActive b' = true →
                          k' = ka) ∧
                ka ≠ activeBranchId tl').
Proof.
  split; [|split].
  - intros q. unfold navigateToNode, getTimeline.
    destruct (timelines s !! pid) as [tl|] eqn:E.
    2:{ cbn [fst]. destruct (timelines s !! q) as [tl0|]; [|done].
        by exists tl0. }
    destruct (nodes tl !! k) as [n|].
    2:{ cbn [fst]. destruct (timelines s !! q) as [tl0|]; [|done].
        by exists tl0. }
    destruct (branches tl !! branchId n) as [b|].
    2:{ cbn [fst]. destruct (timelines s !! q) as [tl0|]; [|done].
        by exists tl0. }
    simpl. destruct (decide (pid = q)) as [<-|Hne].
    + rewrite E, lookup_insert_eq. eexists. split; [done|].
      by repeat (split; [done|]).
    + rewrite lookup_insert_ne by done.
      destruct (timelines s !! q) as [tl0|]; [|done].
      exists tl0. by repeat (split; [done|]).
  - unfold navigateToNode, getTimeline.
    destruct (timelines s !! pid) as [tl|]; [|done].
    destruct (nodes tl !! k) as [n|]; [|done].
    by destruct (branches tl !! branchId n).
  - intros tl n b Hr E Hn Hb Hi.
    unfold navigateToNode, getTimeline. rewrite E, Hn, Hb.
    split; [done|]. eexists. split; [done|]. split; [done|].
    repeat (split; [done|]).
    destruct (wf_one_active _ (reachable_well_formed _ _ _ Hr E))
      as (ka & ba & Hka & Hia & Huniq).
    exists ka, ba. repeat (split; [done|]). simpl. intros ->. congruence.
Qed.

Lemma navigateToNode_keeps_flags_witness :
  (∃ tl',
     timelines (navigateToNode forked_service "P1" "n0").1 !! "P1" = Some tl' ∧
     branches tl' = branches (timeline_of forked_service "P1") ∧
     nodes tl' = nodes (timeline_of forked_service "P1") ∧
     checkpoints tl' = checkpoints (timeline_of forked_service "P1")) ∧
  options (navigateToNode forked_service "P1" "n0").1 = options forked_service ∧
  (navigateToNode forked_service "P1" "n0").2 = true ∧
  ∃ tl',
    (navigateToNode forked_service "P1" "n0").1
    = set_timelines (<[ "P1" := tl']> (timelines forked_service)) forked_service ∧
    tl' = set_activeBranchId "b0"
            (set_activeNodeId "n0" (timeline_of forked_service "P1")) ∧
    branches tl' = branches (timeline_of forked_service "P1") ∧
    nodes tl' = nodes (timeline_of forked_service "P1") ∧
    checkpoints tl' = checkpoints (timeline_of forked_service "P1") ∧
    activeNodeId tl' = "n0" ∧ activeBranchId tl' = "b0" ∧
    ∃ ka ba, branches tl' !! ka = Some ba ∧ isActive ba = true ∧
             (∀ k' b', branches tl' !! k' = Some b' → isActive b' = true →
                       k' = ka) ∧
             ka ≠ activeBranchId tl'.
Proof.
  destruct (navigateToNode_keeps_flags forked_service "P1" "n0")
    as (Hframe & Hopts & Hmove).
  split; [|split; [exact Hopts|]].
  - specialize (Hframe "P1").
    assert (timelines forked_service !! "P1"
            = Some (timeline_of forked_service "P1")) as E
      by (vm_compute; reflexivity).
    rewrite E in Hframe. destruct Hframe as (tl' & H1 & H2 & H3 & H4 & _).
    exists tl'. split; [exact H1|]. split; [exact H2|].
    split; [exact H3|exact H4].
  - apply (Hmove (timeline_of forked_service "P1")
             (mkNode "n0" 0 plan "Project Initialization" "demo"
                "Project initialized with description: demo" ∅ None [] "b0" 1)
             (mkBranch "b0" "Main" "Main development branch" 0 ["n0"] false
                None None)).
    + exact forked_reachable.
    + vm_compute. reflexivity.
    + vm_compute. reflexivity.
    + vm_compute. reflexivity.
    + reflexivity.
Defined.

(** ** The path to the cursor *)

Lemma linked_snoc l x y :
  linked l → last l = Some x → parentId y = Some (node_id x) →
  linked (l ++ [y]).
Proof.
  induction l as [|a [|b l] IH]; simpl; intros Hl Hx Hy; [done| |].
  - injection Hx as ->. done.
  - destruct Hl as [Hab Hl]. split; [done|]. by apply IH.
Qed.

Lemma getCurrentPath_loop_spec nds a :
  history_ok nds a →
  ∀ (m : nat) k n acc,
    nds !! k = Some n → stepNumber n = Z.of_nat m →
    ∃ pre root,
      (∀ fuel, (m ≤ fuel)%nat →
               getCurrentPath_loop fuel nds k acc = Some (pre ++ acc)%list) ∧
      length pre = m ∧ head pre = Some root ∧ parentId root = None ∧
      last pre = Some n ∧ linked pre ∧
      (∀ x, x ∈ pre → nds !! node_id x = Some x).
Proof.
  intros Hh. induction m as [|m IH]; intros k n acc Hk Hstep.
  - pose proof (h_pos _ _ Hh _ _ Hk). lia.
  - destruct (h_key _ _ Hh _ _ Hk) as [Hid Htk].
    destruct (parentId n) as [p|] eqn:Hp.
    + destruct (h_parent _ _ Hh _ _ _ Hk Hp) as (pn & Hpn & Hs).
      destruct (h_key _ _ Hh _ _ Hpn) as [_ Htp].
      destruct (IH p pn (n :: acc) Hpn ltac:(lia))
        as (pre & root & Hrun & Hlen & Hhd & Hroot & Hlast & Hlink & Hst).
      exists (pre ++ [n])%list, root. repeat split.
      * intros [|fuel] Hf; [lia|]. simpl. rewrite Htk, Hk, Hp, Htp.
        rewrite Hrun by lia. by rewrite <- app_assoc.
      * rewrite length_app. simpl. lia.
      * destruct pre; [done|]. done.
      * done.
      * by rewrite last_snoc.
      * apply (linked_snoc _ pn); [done|done|].
        destruct (h_key _ _ Hh _ _ Hpn) as [-> _]. done.
      * intros x [Hx|Hx]%elem_of_app; [by apply Hst|].
        apply list_elem_of_singleton in Hx. subst x. by rewrite Hid.
    + pose proof (h_root _ _ Hh _ _ Hk Hp) as H1.
      assert (m = 0%nat) as -> by lia.
      exists [n], n. repeat split; try done.
      * intros [|fuel] Hf; [lia|]. simpl. by rewrite Htk, Hk, Hp.
      * intros x Hx. apply list_elem_of_singleton in Hx. subst x.
        by rewrite Hid.
Qed.

(** C8: on a timeline with a well-formed history, [getCurrentPath] returns
    (whatever the fuel, once it covers the active node's step) one and the
    same sequence: as many nodes as the active node's [stepNumber], starting
    at a stored node without parent, each node the parent of the next, ending
    at the active node.  The call returns the sequence and leaves the service
    as it is, so a repeated call returns the same sequence. *)
Theorem getCurrentPath_root_to_active s pid tl an :
  timelines s !! pid = Some tl →
  history_ok (nodes tl) (activeNodeId tl) →
  nodes tl !! activeNodeId tl = Some an →
  ∃ path root,
    (∀ fuel, (Z.to_nat (stepNumber an) ≤ fuel)%nat →
             getCurrentPath s pid fuel = Some path) ∧
    Z.of_nat (length path) = stepNumber an ∧
    head path = Some root ∧ parentId root = None ∧
    last path = Some an ∧ linked path ∧
    (∀ x, x ∈ path → nodes tl !! node_id x = Some x).
Proof.
  intros E Hh Han. pose proof (h_pos _ _ Hh _ _ Han) as Hpos.
  destruct (getCurrentPath_loop_spec _ _ Hh (Z.to_nat (stepNumber an))
              (activeNodeId tl) an [] Han ltac:(lia))
    as (pre & root & Hrun & Hlen & Hhd & Hroot & Hlast & Hlink & Hst).
  exists pre, root. repeat split; try done.
  - intros fuel Hf. unfold getCurrentPath, getTimeline. rewrite E.
    rewrite (Hrun fuel Hf). by rewrite app_nil_r.
  - lia.
Qed.

Lemma getCurrentPath_root_to_active_witness :
  let tl := timeline_of linear_service "P1" in
  ∃ path root,
    (∀ fuel, (4 ≤ fuel)%nat → getCurrentPath linear_service "P1" fuel = Some path) ∧
    Z.of_nat (length path) = 4 ∧
    head path = Some root ∧ parentId root = None ∧
    last path
    = Some (mkNode "n3" 3 plan "step" "a step" "text" ∅ (Some "n2") [] "b0" 4) ∧
    linked path ∧
    (∀ x, x ∈ path → nodes tl !! node_id x = Some x).
Proof.
  apply (getCurrentPath_root_to_active linear_service "P1"
           (timeline_of linear_service "P1")
           (mkNode "n3" 3 plan "step" "a step" "text" ∅ (Some "n2") [] "b0" 4)).
  - vm_compute. reflexivity.
  - apply wf_history, (reachable_well_formed linear_service "P1").
    + exact linear_reachable.
    + vm_compute. reflexivity.
  - vm_compute. reflexivity.
Defined.

(** ** The path between two nodes *)

Lemma findPath_loop_found fuel nds e path queue visited node :
  e ∉ visited → nds !! e = Some node →
  findPath_loop (S fuel) nds e ((e, path) :: queue) visited
  = Some (Some (path ++ [node])%list).
Proof.
  intros Hv Hn. simpl. rewrite decide_False by done. rewrite Hn.
  by rewrite decide_True.
Qed.

Lemma findPath_loop_step fuel nds e k path queue visited node :
  k ∉ visited → nds !! k = Some node → k ≠ e →
  (∀ p, parentId node = Some p → p ∈ visited) →
  findPath_loop (S fuel) nds e ((k, path) :: queue) visited
  = findPath_loop fuel nds e
      (queue ++ ((λ c, (c, (path ++ [node])%list)) <$> childrenIds node))%list
      ({[ k ]} ∪ visited).
Proof.
  intros Hv Hn Hne Hpar. simpl. rewrite decide_False by done. rewrite Hn.
  rewrite decide_False by done.
  destruct (parentId node) as [p|]; [|done].
  rewrite bool_decide_eq_true_2 by (apply elem_of_union_r; by apply Hpar).
  by rewrite andb_false_r.
Qed.

Lemma findPath_straight_line nds e rest :
  ∀ n pre prev visited fuel en,
    straight_line nds prev (n :: rest) →
    last (n :: rest) = Some en → node_id en = e →
    NoDup (node_id <$> n :: rest) →
    (∀ x, x ∈ n :: rest → node_id x ∉ visited) →
    (∀ p, prev = Some p → p ∈ visited) →
    (length (n :: rest) ≤ fuel)%nat →
    findPath_loop fuel nds e [(node_id n, pre)] visited
    = Some (Some (pre ++ n :: rest)%list).
Proof.
  induction rest as [|m rest IH];
    intros n pre prev visited fuel en Hline Hlast He Hnd Hfresh Hprev Hfuel.
  - destruct fuel as [|fuel]; [simpl in Hfuel; lia|].
    simpl in Hlast. injection Hlast as <-. subst e.
    destruct Hline as (Hn & _). apply findPath_loop_found; [|done].
    apply Hfresh. by apply list_elem_of_here.
  - destruct fuel as [|fuel]; [simpl in Hfuel; lia|].
    destruct Hline as (Hn & Hp & Hc & Hline).
    rewrite fmap_cons in Hnd. apply NoDup_cons in Hnd as [Hnotin Hnd].
    assert (node_id n ≠ e) as Hne.
    { intros E. apply Hnotin. subst e. rewrite E.
      apply list_elem_of_fmap. exists en. split; [done|].
      change (last (n :: m :: rest)) with (last (m :: rest)) in Hlast.
      by apply last_Some_elem_of. }
    rewrite (findPath_loop_step _ _ _ _ _ _ _ n); try done.
    + rewrite Hc. simpl.
      rewrite (IH m (pre ++ [n])%list (Some (node_id n))
                 ({[node_id n]} ∪ visited) fuel en); try done.
      * by rewrite <- app_assoc.
      * intros x Hx [Hin|Hin]%elem_of_union.
        -- apply elem_of_singleton in Hin. apply Hnotin. rewrite <- Hin.
           apply list_elem_of_fmap. by exists x.
        -- apply (Hfresh x); [|done]. by apply list_elem_of_further.
      * intros p [= <-]. apply elem_of_union_l. by apply elem_of_singleton.
      * simpl in *. lia.
    + apply Hfresh. by apply list_elem_of_here.
    + intros p Hpp. apply Hprev. congruence.
Qed.

(** C9: when five distinct nodes form a straight line in the node store of
    a timeline (the first without parent, each the only child of the one
    before), the search from the first to the last returns the five nodes in
    that order. *)
Theorem findPathBetweenNodes_straight_line tl n1 n2 n3 n4 n5 fuel :
  straight_line (nodes tl) None [n1; n2; n3; n4; n5] →
  NoDup (node_id <$> [n1; n2; n3; n4; n5]) →
  (5 ≤ fuel)%nat →
  findPathBetweenNodes fuel tl (node_id n1) (node_id n5)
  = Some (Some [n1; n2; n3; n4; n5]).
Proof.
  intros Hline Hnd Hfuel. unfold findPathBetweenNodes.
  by rewrite (findPath_straight_line (nodes tl) (node_id n5) [n2; n3; n4; n5]
                n1 [] None ∅ fuel n5).
Qed.

Lemma findPathBetweenNodes_straight_line_witness :
  findPathBetweenNodes 5 (timeline_of chain_service "P1") "n0" "n4"
  = Some (Some [ chain_root;
                 chain_step 1 "n1" "n0" ["n2"];
                 chain_step 2 "n2" "n1" ["n3"];
                 chain_step 3 "n3" "n2" ["n4"];
                 chain_step 4 "n4" "n3" [] ]).
Proof.
  apply (findPathBetweenNodes_straight_line (timeline_of chain_service "P1")
           chain_root (chain_step 1 "n1" "n0" ["n2"])
           (chain_step 2 "n2" "n1" ["n3"]) (chain_step 3 "n3" "n2" ["n4"])
           (chain_step 4 "n4" "n3" []) 5).
  - vm_compute. repeat split.
  - apply (bool_decide_unpack _). vm_compute. exact I.
  - lia.
Defined.

(** ** Checkpoints *)

Lemma anchored_checkpoint k β x y tl :
  y ≠ x → anchored k β x tl → anchored k β x (tl_createCheckpoint y tl).
Proof.
  intros Hne [Hc Hn]. split; [|done]. simpl. by rewrite lookup_insert_ne.
Qed.

Lemma anchored_auto k β x opts now iso tl :
  "auto-" ++ replace_colon_dot iso ≠ x →
  anchored k β x tl → anchored k β x (tl_auto opts now iso tl).
Proof.
  intros Hne Ha. unfold tl_auto.
  destruct (autoCheckpointInterval opts) as [i|]; [|done].
  destruct (i =? 0); [done|]. destruct (_ >=? _); [|done].
  by apply anchored_checkpoint.
Qed.

Lemma anchored_navigate k β x j tl :
  anchored k β x tl → anchored k β x (tl_navigateToNode j tl).
Proof.
  intros Ha. unfold tl_navigateToNode.
  destruct (nodes tl !! j) as [n|]; [|done].
  by destruct (branches tl !! branchId n).
Qed.

Lemma anchored_exec k β x pid opts op tl :
  well_formed tl → tl_fresh op tl → ¬ rebinds pid x op → op_pid op = pid →
  anchored k β x tl →
  ∃ tl', tl_exec opts op (Some tl) = Some tl' ∧ anchored k β x tl'.
Proof.
  intros Hwf Hf Hnr Hp Ha. destruct op; simpl in *.
  - by destruct Hnr.
  - eexists; split; [done|]. unfold tl_addNode.
    destruct (branches tl !! activeBranchId tl) as [ab|] eqn:Hab; [|done].
    destruct (nodes tl !! activeNodeId tl) as [an|] eqn:Han; [|done].
    destruct Hf as [Hv Hfresh].
    apply anchored_auto; [intros E; by apply Hnr|].
    destruct Ha as (Hc & n & b & Hn & Hbr & Hb). split; [done|].
    destruct (inserted_old nodeData newNodeId ts ab an tl Hwf Han Hfresh _ _ Hn)
      as (_ & n' & Hn' & _ & _ & Hbr' & _).
    destruct (inserted_branch_old nodeData newNodeId ts ab an tl Hwf Hab _ _ Hb)
      as (b' & Hb' & _).
    exists n', b'. split; [done|]. split; [congruence|done].
  - eexists; split; [done|]. by apply anchored_navigate.
  - eexists; split; [done|]. unfold tl_createBranch.
    destruct (nodes tl !! activeNodeId tl) as [an|] eqn:Han; [|done].
    destruct (_ >=? _); [done|].
    destruct Ha as (Hc & n & b & Hn & Hbr & Hb). split; [done|].
    exists n, (set_isActive false b). split; [done|]. split; [done|].
    by apply forked_lookup_old.
  - eexists; split; [done|]. apply anchored_checkpoint; [|done].
    intros E. by apply Hnr.
  - eexists; split; [done|]. unfold tl_navigateToCheckpoint.
    destruct (checkpoints tl !! checkpointName) as [j|]; [|done].
    destruct (truthy j); [|done]. by apply anchored_navigate.
Qed.

Lemma anchored_step k β x pid op s :
  service_ok s → uuid_fresh op s → ¬ rebinds pid x op →
  (∃ tl, timelines s !! pid = Some tl ∧ anchored k β x tl) →
  ∃ tl', timelines (exec op s) !! pid = Some tl' ∧ anchored k β x tl'.
Proof.
  intros Hs Hf Hnr (tl & E & Ha).
  rewrite exec_local by by apply service_ok_keyed.
  simpl. rewrite lookup_partial_alter.
  case_decide as Hp; [|by exists tl]. rewrite Hp, E.
  destruct (Hs _ _ E) as [_ Hwf].
  destruct (anchored_exec k β x pid (options s) op tl Hwf) as (tl' & -> & Ha');
    try done; [|by exists tl'].
  apply (uuid_fresh_local _ s); [done|by rewrite Hp].
Qed.

Lemma anchored_run k β x pid ops :
  ∀ s, service_ok s → fresh_run ops s → Forall (λ op, ¬ rebinds pid x op) ops →
       (∃ tl, timelines s !! pid = Some tl ∧ anchored k β x tl) →
       service_ok (run ops s) ∧
       ∃ tl', timelines (run ops s) !! pid = Some tl' ∧ anchored k β x tl'.
Proof.
  induction ops as [|op ops IH]; intros s Hs Hf Hall Ha; simpl in *; [done|].
  destruct Hf as [Hf Hfs]. apply Forall_cons in Hall as [Hnr Hall].
  apply IH; try done; [by apply exec_service_ok|by apply anchored_step].
Qed.

(** C2, as stated, fails.  A checkpoint made right after a fork brings the
    cursor back to the fork point but puts it on the branch of that node,
    not on the new branch that was active; and a checkpoint name bound again
    in between leads to the later node. *)
Lemma checkpoint_round_trip_counterexample :
  (let s := forked_service in
   let s1 := (createCheckpoint s "P1" "x").1 in
   let r := navigateToCheckpoint s1 "P1" "x" in
   reachable s ∧ r.2 = true ∧
   activeBranchId (timeline_of s "P1") = "b1" ∧
   activeBranchId (timeline_of r.1 "P1") = "b0") ∧
  (let s := linear_service in
   let s1 := (createCheckpoint s "P1" "x").1 in
   let s2 := run [OpNavigateToNode "P1" "n1"; OpCreateCheckpoint "P1" "x"] s1 in
   let r := navigateToCheckpoint s2 "P1" "x" in
   reachable s ∧ r.2 = true ∧
   activeNodeId (timeline_of s "P1") = "n3" ∧
   activeNodeId (timeline_of r.1 "P1") = "n1").
Proof.
  split.
  - split; [exact forked_reachable|]. by vm_compute.
  - split; [exact linear_reachable|]. by vm_compute.
Qed.

(** C2 (amended): from a reachable state, [createCheckpoint(x)] followed by
    any run of operations that neither replaces the timeline nor binds [x]
    again, and then [navigateToCheckpoint(x)], succeeds, puts [activeNodeId]
    back to the node that was active when the checkpoint was made, and sets
    [activeBranchId] to the [branchId] of that node. *)
Theorem checkpoint_round_trip s pid x tl an ops :
  reachable s → timelines s !! pid = Some tl →
  nodes tl !! activeNodeId tl = Some an →
  fresh_run ops (createCheckpoint s pid x).1 →
  Forall (λ op, ¬ rebinds pid x op) ops →
  (createCheckpoint s pid x).2 = true ∧
  (navigateToCheckpoint (run ops (createCheckpoint s pid x).1) pid x).2 = true ∧
  ∃ tl',
    timelines (navigateToCheckpoint (run ops (createCheckpoint s pid x).1) pid x).1
      !! pid = Some tl' ∧
    activeNodeId tl' = activeNodeId tl ∧
    activeBranchId tl' = branchId an.
Proof.
  intros Hr E Han Hf Hall.
  pose proof (reachable_service_ok _ Hr) as Hs.
  destruct (Hs _ _ E) as [_ Hwf].
  destruct (proj1 (wf_membership _ Hwf) _ _ Han) as (b & Hb & _).
  assert (service_ok (createCheckpoint s pid x).1) as Hs1.
  { change (service_ok (exec (OpCreateCheckpoint pid x) s)).
    by apply exec_service_ok. }
  destruct (anchored_run (activeNodeId tl) (branchId an) x pid ops
              (createCheckpoint s pid x).1 Hs1 Hf Hall)
    as (Hs2 & tl2 & E2 & Hc2 & n2 & b2 & Hn2 & Hbr2 & Hb2).
  { unfold createCheckpoint, getTimeline. rewrite E. simpl.
    eexists. split; [apply lookup_insert_eq|]. split.
    - simpl. apply lookup_insert_eq.
    - exists an, b. simpl. done. }
  split; [unfold createCheckpoint, getTimeline; by rewrite E|].
  destruct (Hs2 _ _ E2) as [_ Hwf2].
  destruct (h_key _ _ (wf_history _ Hwf2) _ _ Hn2) as [_ Ht].
  unfold navigateToCheckpoint, navigateToNode, getTimeline.
  rewrite !E2, Hc2, Ht, Hn2, Hbr2, Hb2. simpl.
  split; [done|]. eexists. split; [apply lookup_insert_eq|]. done.
Qed.

Lemma checkpoint_round_trip_witness :
  let s := forked_service in
  let ops := [ OpAddNode "P1" sample_data "n1" 2 2 "1970-01-01T00:00:00.002Z";
               OpCreateCheckpoint "P1" "y";
               OpCreateBranch "P1" "other" "another" "b2" 3 ] in
  (createCheckpoint s "P1" "x").2 = true ∧
  (navigateToCheckpoint (run ops (createCheckpoint s "P1" "x").1) "P1" "x").2
  = true ∧
  ∃ tl',
    timelines
      (navigateToCheckpoint (run ops (createCheckpoint s "P1" "x").1) "P1" "x").1
      !! "P1" = Some tl' ∧
    activeNodeId tl' = "n0" ∧ activeBranchId tl' = "b0".
Proof.
  apply (checkpoint_round_trip forked_service "P1" "x"
           (timeline_of forked_service "P1")
           (mkNode "n0" 0 plan "Project Initialization" "demo"
              "Project initialized with description: demo" ∅ None [] "b0" 1)).
  - exact forked_reachable.
  - vm_compute. reflexivity.
  - vm_compute. reflexivity.
  - vm_compute. repeat split.
  - repeat constructor; simpl; try tauto; by intros [_ ?].
Defined.

(** * Further properties of the service *)

(** ** One slot at a time *)

Lemma exec_slot s op q :
  keyed s →
  timelines (exec op s) !! q
  = if decide (op_pid op = q) then tl_exec (options s) op (timelines s !! q)
    else timelines s !! q.
Proof.
  intros Hk. rewrite exec_local by done. simpl. rewrite lookup_partial_alter.
  by case_decide; subst.
Qed.

Lemma exec_options s op : keyed s → options (exec op s) = options s.
Proof. intros Hk. by rewrite exec_local. Qed.

Lemma busy_reachable : reachable busy_service.
Proof.
  apply reachable_run; [apply reach_new|]. vm_compute. repeat split.
Qed.

(** ** Failures *)

(** X1: an operation that reports failure ([undefined] or [false]) leaves
    the service exactly as it was. *)
Theorem failure_leaves_service_unchanged s pid :
  (∀ nodeData v ts now iso,
     (addNode s pid nodeData v ts now iso).2 = None →
     (addNode s pid nodeData v ts now iso).1 = s) ∧
  (∀ k, (navigateToNode s pid k).2 = false → (navigateToNode s pid k).1 = s) ∧
  (∀ name desc v c,
     (createBranch s pid name desc v c).1.2 = None →
     (createBranch s pid name desc v c).1.1 = s) ∧
  (∀ x, (createCheckpoint s pid x).2 = false → (createCheckpoint s pid x).1 = s) ∧
  (∀ x, (navigateToCheckpoint s pid x).2 = false →
        (navigateToCheckpoint s pid x).1 = s).
Proof.
  assert (∀ k, (navigateToNode s pid k).2 = false → (navigateToNode s pid k).1 = s)
    as Hnav.
  { intros k. unfold navigateToNode, getTimeline.
    destruct (timelines s !! pid) as [tl|]; [|done].
    destruct (nodes tl !! k) as [n|]; [|done].
    by destruct (branches tl !! branchId n). }
  split; [|split; [done|split; [|split]]].
  - intros nodeData v ts now iso. unfold addNode, getTimeline.
    destruct (timelines s !! pid) as [tl|]; [|done].
    destruct (branches tl !! activeBranchId tl) as [ab|]; [|done].
    by destruct (nodes tl !! activeNodeId tl) as [an|].
  - intros name desc v c. unfold createBranch, getTimeline.
    destruct (timelines s !! pid) as [tl|]; [|done].
    destruct (nodes tl !! activeNodeId tl) as [an|]; [|done].
    by destruct (_ >=? _).
  - intros x. unfold createCheckpoint, getTimeline.
    by destruct (timelines s !! pid) as [tl|].
  - intros x. unfold navigateToCheckpoint, getTimeline.
    destruct (timelines s !! pid) as [tl|] eqn:E; [|done].
    destruct (checkpoints tl !! x) as [k|]; [|done].
    destruct (truthy k); [|done]. apply Hnav.
Qed.

Lemma failure_leaves_service_unchanged_witness :
  (addNode forked_service "P9" sample_data "n1" 2 2 "x").1 = forked_service ∧
  (navigateToNode forked_service "P1" "n9").1 = forked_service ∧
  (createBranch crowded_service "P1" "eleventh" "one too many" "b10" 2).1.1
  = crowded_service ∧
  (createCheckpoint forked_service "P9" "x").1 = forked_service ∧
  (navigateToCheckpoint forked_service "P1" "never made").1 = forked_service.
Proof.
  destruct (failure_leaves_service_unchanged forked_service "P9")
    as (Hadd & _ & _ & Hcp & _).
  destruct (failure_leaves_service_unchanged forked_service "P1")
    as (_ & Hnav & _ & _ & Hnavcp).
  destruct (failure_leaves_service_unchanged crowded_service "P1")
    as (_ & _ & Hbr & _ & _).
  split; [|split; [|split; [|split]]].
  - apply Hadd. vm_compute. reflexivity.
  - apply Hnav. vm_compute. reflexivity.
  - apply Hbr. vm_compute. reflexivity.
  - apply Hcp. vm_compute. reflexivity.
  - apply Hnavcp. vm_compute. reflexivity.
Defined.

(** ** Projects do not interfere *)

(** X2: in a reachable state an operation on one project leaves the
    timeline of every other project, and the options, as they were. *)
Theorem other_projects_untouched s op q :
  reachable s → op_pid op ≠ q →
  timelines (exec op s) !! q = timelines s !! q ∧
  options (exec op s) = options s.
Proof.
  intros Hr Hne. pose proof (service_ok_keyed _ (reachable_service_ok _ Hr)) as Hk.
  split; [|by apply exec_options].
  rewrite exec_slot by done. by rewrite decide_False.
Qed.

Lemma other_projects_untouched_witness :
  timelines (exec (OpAddNode "P2" sample_data "m1" 5 5000000
                     "1970-01-01T01:23:20.000Z") busy_service) !! "P1"
  = timelines busy_service !! "P1" ∧
  options (exec (OpAddNode "P2" sample_data "m1" 5 5000000
                   "1970-01-01T01:23:20.000Z") busy_service)
  = options busy_service.
Proof.
  apply (other_projects_untouched busy_service
           (OpAddNode "P2" sample_data "m1" 5 5000000 "1970-01-01T01:23:20.000Z")
           "P1").
  - exact busy_reachable.
  - simpl. discriminate.
Defined.

(** ** Nodes are only ever added *)

Lemma tl_exec_node_kept opts op tl tl' k n :
  well_formed tl → tl_fresh op tl →
  match op with OpCreateTimeline _ _ _ _ _ _ => False | _ => True end →
  tl_exec opts op (Some tl) = Some tl' →
  nodes tl !! k = Some n →
  ∃ n', nodes tl' !! k = Some n' ∧
        (n' = n ∨ (k = activeNodeId tl ∧ ∃ v, n' = push_child v n)).
Proof.
  intros Hwf Hf Hnc Hex Hn. destruct op; simpl in *; try done;
    injection Hex as <-.
  - unfold tl_addNode.
    destruct (branches tl !! activeBranchId tl) as [ab|] eqn:Hab;
      [|exists n; by split; [|left]].
    destruct (nodes tl !! activeNodeId tl) as [an|] eqn:Han;
      [|exists n; by split; [|left]].
    destruct Hf as [Hv Hfresh].
    assert (nodes (tl_auto opts now iso
                     (tl_inserted nodeData newNodeId ts ab an tl))
            = nodes (tl_inserted nodeData newNodeId ts ab an tl)) as ->.
    { unfold tl_auto. destruct (autoCheckpointInterval opts) as [i|]; [|done].
      destruct (i =? 0); [done|]. by destruct (_ >=? _). }
    rewrite (inserted_nodes nodeData newNodeId ts ab an tl Hwf Han).
    assert (k ≠ newNodeId) as Hne by (intros ->; congruence).
    rewrite lookup_insert_ne by done.
    destruct (decide (k = activeNodeId tl)) as [->|Hka].
    + rewrite lookup_insert_eq. rewrite Han in Hn. injection Hn as <-.
      eexists. split; [done|]. right. split; [done|]. by eexists.
    + rewrite lookup_insert_ne by done. exists n. by split; [|left].
  - exists n. split; [|by left]. unfold tl_navigateToNode.
    destruct (nodes tl !! nodeId) as [m|]; [|done].
    by destruct (branches tl !! branchId m).
  - exists n. split; [|by left]. unfold tl_createBranch.
    destruct (nodes tl !! activeNodeId tl) as [an|]; [|done].
    by destruct (_ >=? _).
  - exists n. by split; [|left].
  - exists n. split; [|by left]. unfold tl_navigateToCheckpoint.
    destruct (checkpoints tl !! checkpointName) as [j|]; [|done].
    destruct (truthy j); [|done]. unfold tl_navigateToNode.
    destruct (nodes tl !! j) as [m|]; [|done].
    by destruct (branches tl !! branchId m).
Qed.

(** X3: from a reachable state, no operation other than re-creating the
    project's timeline removes or rewrites a stored node: the node stays
    under its identifier with every field as it was, except that the node
    under the cursor may get one more child at the end of [childrenIds]. *)
Theorem nodes_append_only s op pid tl k n :
  reachable s → uuid_fresh op s → ¬ recreates pid op →
  timelines s !! pid = Some tl → nodes tl !! k = Some n →
  ∃ tl' n',
    timelines (exec op s) !! pid = Some tl' ∧ nodes tl' !! k = Some n' ∧
    (n' = n ∨ (k = activeNodeId tl ∧ ∃ v, n' = push_child v n)).
Proof.
  intros Hr Hf Hnr E Hn. pose proof (reachable_service_ok _ Hr) as Hs.
  rewrite exec_slot by by apply service_ok_keyed.
  case_decide as Hp; [|exists tl, n; by split; [|split; [|left]]].
  rewrite E. destruct (Hs _ _ E) as [_ Hwf].
  assert (tl_fresh op tl) as Hft
    by (apply (uuid_fresh_local _ s); [done|by rewrite Hp]).
  destruct (tl_exec_well_formed (options s) op tl Hwf Hft) as (tl' & Hex & _).
  rewrite Hex. exists tl'.
  destruct (tl_exec_node_kept (options s) op tl tl' k n Hwf Hft) as (n' & Hn' & Hc);
    try done; [|by exists n'].
  destruct op; try done; simpl in *; by apply Hnr.
Qed.

Lemma nodes_append_only_witness :
  ∃ tl' n',
    timelines (exec (OpAddNode "P1" sample_data "n1" 2 2 "x") forked_service)
      !! "P1" = Some tl' ∧
    nodes tl' !! "n0" = Some n' ∧
    (n' = mkNode "n0" 0 plan "Project Initialization" "demo"
            "Project initialized with description: demo" ∅ None [] "b0" 1 ∨
     ("n0" = activeNodeId (timeline_of forked_service "P1") ∧
      ∃ v, n' = push_child v
                  (mkNode "n0" 0 plan "Project Initialization" "demo"
                     "Project initialized with description: demo" ∅ None []
                     "b0" 1))).
Proof.
  apply (nodes_append_only forked_service
           (OpAddNode "P1" sample_data "n1" 2 2 "x") "P1"
           (timeline_of forked_service "P1") "n0").
  - exact forked_reachable.
  - vm_compute. repeat split.
  - simpl. tauto.
  - vm_compute. reflexivity.
  - vm_compute. reflexivity.
Defined.

(** ** The branch cap *)





(** ** Checkpoints name stored nodes *)

Lemma tl_exec_checkpoints_ok opts op tl tl' :
  well_formed tl → tl_fresh op tl → checkpoints_ok tl →
  tl_exec opts op (Some tl) = Some tl' → checkpoints_ok tl'.
Proof.
  intros Hwf Hf Hc Hex.
  assert (match op with OpCreateTimeline _ _ _ _ _ _ => False | _ => True end →
          ∀ k, is_Some (nodes tl !! k) → is_Some (nodes tl' !! k)) as Hkeep.
  { intros Hnc k [n Hn].
    destruct (tl_exec_node_kept opts op tl tl' k n Hwf Hf) as (n' & Hn' & _);
      try done; by eexists. }
  destruct (tl_exec_well_formed opts op tl Hwf Hf) as (tl2 & Hex2 & Hwf2 & _).
  rewrite Hex in Hex2. injection Hex2 as <-.
  pose proof (h_active _ _ (wf_history _ Hwf2)) as Hact'.
  assert (∀ y t, checkpoints_ok t → is_Some (nodes t !! activeNodeId t) →
                 checkpoints_ok (tl_createCheckpoint y t)) as Hcp.
  { intros y t Ht Ha x k. simpl. rewrite lookup_insert.
    case_decide; [by intros [= <-]|by apply Ht]. }
  destruct op; simpl in *; injection Hex as <-; try specialize (Hkeep I).
  - intros x k. unfold initial_timeline, createTimeline. simpl.
    intros [_ <-]%lookup_singleton_Some. rewrite lookup_singleton_eq. by eexists.
  - unfold tl_addNode in *.
    destruct (branches tl !! activeBranchId tl) as [ab|] eqn:Hab; [|done].
    destruct (nodes tl !! activeNodeId tl) as [an|] eqn:Han; [|done].
    assert (checkpoints_ok (tl_inserted nodeData newNodeId ts ab an tl)) as Hi.
    { intros x k Hx. simpl in Hx. specialize (Hc _ _ Hx).
      specialize (Hkeep _ Hc).
      revert Hkeep. unfold tl_auto.
      destruct (autoCheckpointInterval opts) as [i|]; [|done].
      destruct (i =? 0); [done|]. by destruct (_ >=? _). }
    unfold tl_auto in *. destruct (autoCheckpointInterval opts) as [i|]; [|done].
    destruct (i =? 0); [done|]. destruct (_ >=? _); [|done].
    apply Hcp; [done|]. exact Hact'.
  - intros x k Hx. apply Hkeep, (Hc x). revert Hx. unfold tl_navigateToNode.
    destruct (nodes tl !! nodeId) as [m|]; [|done].
    by destruct (branches tl !! branchId m).
  - intros x k Hx. apply Hkeep, (Hc x). revert Hx. unfold tl_createBranch.
    destruct (nodes tl !! activeNodeId tl) as [an|]; [|done].
    by destruct (_ >=? _).
  - apply Hcp; [done|]. exact (h_active _ _ (wf_history _ Hwf)).
  - intros x k Hx. apply Hkeep, (Hc x). revert Hx. unfold tl_navigateToCheckpoint.
    destruct (checkpoints tl !! checkpointName) as [j|]; [|done].
    destruct (truthy j); [|done]. unfold tl_navigateToNode.
    destruct (nodes tl !! j) as [m|]; [|done].
    by destruct (branches tl !! branchId m).
Qed.

Lemma reachable_checkpoints_ok s pid tl :
  reachable s → timelines s !! pid = Some tl → checkpoints_ok tl.
Proof.
  intros Hr. revert pid tl. induction Hr as [opts|s op Hr IH Hf]; intros pid tl.
  - destruct opts; simpl; by rewrite lookup_empty.
  - pose proof (reachable_service_ok _ Hr) as Hs.
    rewrite exec_slot by by apply service_ok_keyed.
    case_decide as Hp; [|by apply IH].
    destruct (timelines s !! pid) as [tl0|] eqn:E.
    + intros Hex. destruct (Hs _ _ E) as [_ Hwf].
      apply (tl_exec_checkpoints_ok (options s) op tl0 tl Hwf); try done.
      * apply (uuid_fresh_local _ s); [done|by rewrite Hp].
      * by apply (IH pid).
    + destruct op; simpl; try done. intros [= <-].
      intros x k. unfold initial_timeline, createTimeline. simpl.
      intros [_ <-]%lookup_singleton_Some. rewrite lookup_singleton_eq.
      by eexists.
Qed.

(** X5: in every reachable state each checkpoint names a stored node, and
    [navigateToCheckpoint] succeeds exactly on the names that are bound. *)
Theorem checkpoints_resolve s pid tl :
  reachable s → timelines s !! pid = Some tl →
  (∀ x k, checkpoints tl !! x = Some k → is_Some (nodes tl !! k)) ∧
  (∀ x, (navigateToCheckpoint s pid x).2 = true ↔ is_Some (checkpoints tl !! x)).
Proof.
  intros Hr E. pose proof (reachable_checkpoints_ok _ _ _ Hr E) as Hc.
  split; [exact Hc|]. intros x.
  unfold navigateToCheckpoint, navigateToNode, getTimeline. rewrite E.
  destruct (checkpoints tl !! x) as [k|] eqn:Hx; [|split; [done|by intros [? ?]]].
  split; [by eexists|]. intros _.
  destruct (Hc _ _ Hx) as [n Hn].
  pose proof (reachable_well_formed _ _ _ Hr E) as Hwf.
  destruct (h_key _ _ (wf_history _ Hwf) _ _ Hn) as [_ ->].
  rewrite Hn.
  destruct (proj1 (wf_membership _ Hwf) _ _ Hn) as (b & -> & _). done.
Qed.

Lemma checkpoints_resolve_witness :
  let tl := timeline_of busy_service "P1" in
  (∀ x k, checkpoints tl !! x = Some k → is_Some (nodes tl !! k)) ∧
  (∀ x, (navigateToCheckpoint busy_service "P1" x).2 = true
        ↔ is_Some (checkpoints tl !! x)).
Proof.
  apply (checkpoints_resolve busy_service "P1").
  - exact busy_reachable.
  - vm_compute. reflexivity.
Defined.

(** ** The automatic checkpoint *)

Lemma latest_fold (l : list Z) : ∀ init,
  let r := foldl (λ latest current, if current >? latest then current else latest)
                 init l in
  init ≤ r ∧ (∀ x, x ∈ l → x ≤ r) ∧ (r = init ∨ r ∈ l).
Proof.
  induction l as [|a l IH]; intros init; simpl.
  - split; [lia|]. split; [|by left]. intros x Hx. by apply elem_of_nil in Hx.
  - destruct (IH (if a >? init then a else init)) as (Hge & Hall & Hat).
    destruct (Z.gtb_spec a init) as [Hgt|Hle].
    + split; [lia|]. split.
      * intros x [->|Hx]%elem_of_cons; [lia|by apply Hall].
      * right. destruct Hat as [->|Hin]; [apply list_elem_of_here|].
        by apply list_elem_of_further.
    + split; [lia|]. split.
      * intros x [->|Hx]%elem_of_cons; [lia|by apply Hall].
      * destruct Hat as [->|Hin]; [by left|]. right.
        by apply list_elem_of_further.
Qed.

(** X6: the latest checkpoint time is the largest timestamp among the nodes
    the checkpoints name, and [new Date(0)] when there is none or all are
    earlier: it is not negative, no checkpointed node is later, and it is 0
    or the timestamp of a checkpointed node. *)
Theorem latestCheckpointTime_is_latest tl :
  0 ≤ latestCheckpointTime tl ∧
  (∀ x k n, checkpoints tl !! x = Some k → nodes tl !! k = Some n →
            timestamp n ≤ latestCheckpointTime tl) ∧
  (latestCheckpointTime tl = 0 ∨
   ∃ x k n, checkpoints tl !! x = Some k ∧ nodes tl !! k = Some n ∧
            timestamp n = latestCheckpointTime tl).
Proof.
  unfold latestCheckpointTime.
  match goal with |- context [foldl ?f 0 ?l] =>
    destruct (latest_fold l 0) as (Hge & Hall & Hat) end.
  split; [done|]. split.
  - intros x k n Hx Hn. apply Hall. apply list_elem_of_fmap.
    exists (x, k). simpl. rewrite Hn. split; [done|].
    by apply elem_of_map_to_list.
  - destruct Hat as [->|Hin]; [by left|].
    apply list_elem_of_fmap in Hin as ([x k] & Heq & Hin).
    apply elem_of_map_to_list in Hin. simpl in Heq.
    destruct (nodes tl !! k) as [n|] eqn:Hn; [|by left].
    right. by exists x, k, n.
Qed.

Lemma latestCheckpointTime_is_latest_witness :
  latestCheckpointTime (timeline_of busy_service "P1") = 2.
Proof.
  destruct (latestCheckpointTime_is_latest (timeline_of busy_service "P1"))
    as (_ & Hub & _).
  apply Z.le_antisymm; [by vm_compute|].
  apply (Hub "before" "n1"
           (mkNode "n1" 2 plan "step" "a step" "text" ∅ (Some "n0") [] "b1" 2));
    vm_compute; reflexivity.
Defined.

Lemma inserted_latest nodeData v ts ab an tl :
  well_formed tl → checkpoints_ok tl →
  nodes tl !! activeNodeId tl = Some an → nodes tl !! v = None →
  latestCheckpointTime (tl_inserted nodeData v ts ab an tl)
  = latestCheckpointTime tl.
Proof.
  intros Hwf Hc Han Hfresh. unfold latestCheckpointTime. f_equal.
  change (checkpoints (tl_inserted nodeData v ts ab an tl)) with (checkpoints tl).
  apply Forall_fmap_ext_1, Forall_forall. intros [x k] Hin.
  apply elem_of_map_to_list in Hin. cbn [snd].
  destruct (Hc _ _ Hin) as [n Hn].
  rewrite (inserted_nodes nodeData v ts ab an tl Hwf Han).
  assert (k ≠ v) as Hne by (intros ->; congruence).
  rewrite lookup_insert_ne by done.
  destruct (decide (k = activeNodeId tl)) as [->|Hka].
  - rewrite lookup_insert_eq, Han. done.
  - by rewrite lookup_insert_ne.
Qed.

(** X7: from a reachable state, a successful [addNode] with a fresh
    identifier binds an automatic checkpoint exactly when an interval is
    configured, is not 0, and at least that many minutes separate the clock
    read from the latest checkpoint time as it was before the call; the
    checkpoint is named after the clock read and points at the node just
    added.  Otherwise the checkpoints stay as they were. *)
Theorem addNode_auto_checkpoint s pid tl ab an nodeData v ts now iso :
  reachable s → timelines s !! pid = Some tl →
  branches tl !! activeBranchId tl = Some ab →
  nodes tl !! activeNodeId tl = Some an →
  nodes tl !! v = None →
  ∃ tl',
    timelines (addNode s pid nodeData v ts now iso).1 !! pid = Some tl' ∧
    checkpoints tl'
    = if checkpoint_due (options s) now (latestCheckpointTime tl)
      then <["auto-" ++ replace_colon_dot iso := v]> (checkpoints tl)
      else checkpoints tl.
Proof.
  intros Hr E Hab Han Hfresh.
  pose proof (reachable_service_ok _ Hr) as Hs.
  pose proof (service_ok_keyed _ Hs) as Hk.
  destruct (Hs _ _ E) as [_ Hwf].
  pose proof (reachable_checkpoints_ok _ _ _ Hr E) as Hc.
  change ((addNode s pid nodeData v ts now iso).1)
    with (exec (OpAddNode pid nodeData v ts now iso) s).
  rewrite exec_slot by done. simpl. rewrite decide_True by done. rewrite E.
  eexists. split; [done|]. unfold tl_addNode. rewrite Hab, Han.
  unfold tl_auto, checkpoint_due.
  rewrite (inserted_latest nodeData v ts ab an tl Hwf Hc Han Hfresh).
  destruct (autoCheckpointInterval (options s)) as [i|]; [|done].
  destruct (i =? 0); [done|]. by destruct (_ >=? _).
Qed.

Lemma addNode_auto_checkpoint_witness :
  ∃ tl',
    timelines (addNode forked_service "P1" sample_data "n1" 2 900000
                 "1970-01-01T00:15:00.000Z").1 !! "P1" = Some tl' ∧
    checkpoints tl'
    = if checkpoint_due (options forked_service) 900000
           (latestCheckpointTime (timeline_of forked_service "P1"))
      then <["auto-" ++ replace_colon_dot "1970-01-01T00:15:00.000Z" := "n1"]>
             (checkpoints (timeline_of forked_service "P1"))
      else checkpoints (timeline_of forked_service "P1").
Proof.
  apply (addNode_auto_checkpoint forked_service "P1"
           (timeline_of forked_service "P1")
           (mkBranch "b1" "experiment" "try alt" 1 ["n0"] true (Some "b0")
              (Some "n0"))
           (mkNode "n0" 0 plan "Project Initialization" "demo"
              "Project initialized with description: demo" ∅ None [] "b0" 1)).
  - exact forked_reachable.
  - vm_compute. reflexivity.
  - vm_compute. reflexivity.
  - vm_compute. reflexivity.
  - vm_compute. reflexivity.
Defined.

(** ** The search terminates *)

Lemma store_weight_delete nds k n :
  nds !! k = Some n →
  store_weight nds = (length (childrenIds n) + 2 + store_weight (delete k nds))%nat.
Proof.
  intros Hk. unfold store_weight.
  by rewrite <- (map_to_list_delete nds k n Hk).
Qed.

Lemma findPath_loop_terminates nds e :
  ∀ fuel rest queue visited,
    (∀ k, k ∉ visited → nds !! k = rest !! k) →
    (length queue + store_weight rest < fuel)%nat →
    is_Some (findPath_loop fuel nds e queue visited).
Proof.
  induction fuel as [|fuel IH]; intros rest queue visited Hag Hlt; [lia|].
  destruct queue as [|[k path] queue]; simpl; [by eexists|].
  simpl in Hlt. case_decide as Hv.
  - apply (IH rest); [done|lia].
  - destruct (nds !! k) as [node|] eqn:Hk.
    + case_decide as He; [by eexists|].
      rewrite (Hag k Hv) in Hk.
      pose proof (store_weight_delete _ _ _ Hk) as Hw.
      apply (IH (delete k rest)).
      * intros j Hj. rewrite lookup_delete_ne by set_solver.
        apply Hag. set_solver.
      * destruct (parentId node) as [p|];
          [destruct (truthy p && negb (bool_decide (p ∈ {[k]} ∪ visited)))|];
          rewrite ?length_app, ?length_fmap; simpl; lia.
    + apply (IH rest); [|lia]. intros j Hj. apply Hag. set_solver.
Qed.

Lemma findPath_loop_more_fuel nds e :
  ∀ fuel fuel' queue visited r,
    findPath_loop fuel nds e queue visited = Some r → (fuel ≤ fuel')%nat →
    findPath_loop fuel' nds e queue visited = Some r.
Proof.
  induction fuel as [|fuel IH]; intros fuel' queue visited r Hr Hle; [done|].
  destruct fuel' as [|fuel']; [lia|].
  destruct queue as [|[k path] queue]; simpl in *; [done|].
  case_decide; [apply (IH fuel'); [done|lia]|].
  destruct (nds !! k) as [node|]; [|apply (IH fuel'); [done|lia]].
  case_decide; [done|]. apply (IH fuel'); [done|lia].
Qed.

Lemma search_total tl startNodeId endNodeId :
  ∃ r, ∀ fuel, (store_weight (nodes tl) + 2 ≤ fuel)%nat →
               findPathBetweenNodes fuel tl startNodeId endNodeId = Some r.
Proof.
  unfold findPathBetweenNodes.
  destruct (findPath_loop_terminates (nodes tl) endNodeId
              (store_weight (nodes tl) + 2) (nodes tl)
              [(startNodeId, [])] ∅) as [r Hr]; [done|simpl; lia|].
  exists r. intros fuel Hf. by apply (findPath_loop_more_fuel _ _ _ _ _ _ _ Hr).
Qed.

(** X8: the search of [findPathBetweenNodes] always terminates, whatever
    the links between the stored nodes (cycles included): with fuel beyond
    the weight of the node store it returns, and more fuel does not change
    what it returns. *)
Theorem findPathBetweenNodes_terminates tl startNodeId endNodeId :
  ∃ r, ∀ fuel, (store_weight (nodes tl) + 2 ≤ fuel)%nat →
               findPathBetweenNodes fuel tl startNodeId endNodeId = Some r.
Proof.
  unfold findPathBetweenNodes.
  destruct (findPath_loop_terminates (nodes tl) endNodeId
              (store_weight (nodes tl) + 2) (nodes tl)
              [(startNodeId, [])] ∅) as [r Hr].
  - done.
  - simpl. lia.
  - exists r. intros fuel Hf.
    by apply (findPath_loop_more_fuel _ _ _ _ _ _ _ Hr).
Qed.

(** ** What the search returns *)

Lemma stepwise_snoc l x y :
  stepwise l → last l = Some x →
  (node_id y ∈ childrenIds x ∨ parentId x = Some (node_id y)) →
  stepwise (l ++ [y]).
Proof.
  induction l as [|a [|b l] IH]; simpl; intros Hl Hx Hy; [done| |].
  - injection Hx as ->. done.
  - destruct Hl as [Hab Hl]. split; [done|]. by apply IH.
Qed.

Lemma entry_ok_extend nds start k path node :
  (∀ j n, nds !! j = Some n → node_id n = j) →
  entry_ok nds start (k, path) → nds !! k = Some node →
  walk_from nds start (path ++ [node]) ∧ last (path ++ [node]) = Some node.
Proof.
  intros Hkey Hok Hk. pose proof (Hkey _ _ Hk) as Hid.
  split; [|by rewrite last_snoc].
  destruct Hok as [[Hnil Hst]|[(Hhd & Hstored & Hstep) (l & Hl & Hadj)]];
    simpl in *.
  - subst path k. split; [by exists node|]. split; [|done].
    intros x Hx. apply list_elem_of_singleton in Hx. subst x. by rewrite Hid.
  - split; [|split].
    + destruct Hhd as (first & Hf & Hfid). exists first. split; [|done].
      destruct path; [done|]. done.
    + intros x [Hx|Hx]%elem_of_app; [by apply Hstored|].
      apply list_elem_of_singleton in Hx. subst x. by rewrite Hid.
    + apply (stepwise_snoc _ l); [done|done|]. by rewrite Hid.
Qed.

Lemma findPath_loop_sound nds start e :
  (∀ j n, nds !! j = Some n → node_id n = j) →
  ∀ fuel queue visited path,
    Forall (entry_ok nds start) queue →
    findPath_loop fuel nds e queue visited = Some (Some path) →
    walk_from nds start path ∧ ∃ l, last path = Some l ∧ node_id l = e.
Proof.
  intros Hkey. induction fuel as [|fuel IH]; intros queue visited path Hq Hr;
    [done|].
  destruct queue as [|[k p] queue]; simpl in Hr; [done|].
  apply Forall_cons in Hq as [Hok Hq].
  case_decide; [by apply (IH queue visited)|].
  destruct (nds !! k) as [node|] eqn:Hk; [|by apply (IH queue ({[k]} ∪ visited))].
  destruct (entry_ok_extend nds start k p node Hkey Hok Hk) as [Hwalk Hlast].
  case_decide as He.
  - injection Hr as <-. split; [done|]. exists node. split; [done|].
    subst e. by apply Hkey.
  - apply (IH _ _ _) in Hr; [done|].
    assert (Forall (entry_ok nds start)
              (queue ++ ((λ c, (c, (p ++ [node])%list)) <$> childrenIds node)))
      as Hq'.
    { apply Forall_app. split; [done|]. apply Forall_fmap, Forall_forall.
      intros c Hc. right. simpl. split; [done|]. exists node. by split; [|left]. }
    destruct (parentId node) as [pp|] eqn:Hp; [|done].
    destruct (truthy pp && negb (bool_decide (pp ∈ {[k]} ∪ visited))); [|done].
    apply Forall_app. split; [done|]. apply Forall_singleton.
    right. simpl. split; [done|]. exists node. by split; [|right].
Qed.

(** X9: in a store that holds every node under its own identifier, a path
    returned by [findPathBetweenNodes] starts at the start node, ends at the
    end node, consists of stored nodes, and goes from each node to one of
    its children or to its parent. *)
Theorem findPathBetweenNodes_sound tl startNodeId endNodeId fuel path :
  (∀ k n, nodes tl !! k = Some n → node_id n = k) →
  findPathBetweenNodes fuel tl startNodeId endNodeId = Some (Some path) →
  (∃ first, head path = Some first ∧ node_id first = startNodeId) ∧
  (∃ l, last path = Some l ∧ node_id l = endNodeId) ∧
  (∀ x, x ∈ path → nodes tl !! node_id x = Some x) ∧
  stepwise path.
Proof.
  intros Hkey Hr. unfold findPathBetweenNodes in Hr.
  apply (findPath_loop_sound (nodes tl) startNodeId endNodeId Hkey) in Hr
    as [(Hhd & Hst & Hsw) Hl]; [done|].
  apply Forall_singleton. by left.
Qed.

Lemma findPathBetweenNodes_sound_witness :
  let path := [ chain_step 3 "n3" "n2" ["n4"];
                chain_step 2 "n2" "n1" ["n3"];
                chain_step 1 "n1" "n0" ["n2"] ] in
  (∃ first, head path = Some first ∧ node_id first = "n3") ∧
  (∃ l, last path = Some l ∧ node_id l = "n1") ∧
  (∀ x, x ∈ path → nodes (timeline_of chain_service "P1") !! node_id x = Some x) ∧
  stepwise path.
Proof.
  apply (findPathBetweenNodes_sound (timeline_of chain_service "P1")
           "n3" "n1" 9).
  - apply (h_key _ _ (wf_history _ (reachable_well_formed chain_service "P1" _
      ltac:(apply reachable_run; [apply reach_new|]; vm_compute; repeat split)
      ltac:(vm_compute; reflexivity)))).
  - vm_compute. reflexivity.
Defined.

(** ** How the node store changes *)

Lemma tl_exec_nodes opts op tl tl' :
  well_formed tl → tl_fresh op tl →
  match op with OpCreateTimeline _ _ _ _ _ _ => False | _ => True end →
  tl_exec opts op (Some tl) = Some tl' →
  nodes tl' = nodes tl ∨
  ∃ an nodeData v ts,
    nodes tl !! activeNodeId tl = Some an ∧ nodes tl !! v = None ∧
    truthy v = true ∧
    nodes tl'
    = <[v := inserted_node nodeData v ts an tl]>
        (<[activeNodeId tl := push_child v an]> (nodes tl)).
Proof.
  intros Hwf Hf Hnc Hex. destruct op; simpl in *; try done;
    injection Hex as <-.
  - unfold tl_addNode.
    destruct (branches tl !! activeBranchId tl) as [ab|] eqn:Hab; [|by left].
    destruct (nodes tl !! activeNodeId tl) as [an|] eqn:Han; [|by left].
    destruct Hf as [Hv Hfresh]. right. exists an, nodeData, newNodeId, ts.
    repeat (split; [done|]).
    rewrite <- (inserted_nodes nodeData newNodeId ts ab an tl Hwf Han).
    unfold tl_auto. destruct (autoCheckpointInterval opts) as [i|]; [|done].
    destruct (i =? 0); [done|]. by destruct (_ >=? _).
  - left. unfold tl_navigateToNode.
    destruct (nodes tl !! nodeId) as [m|]; [|done].
    by destruct (branches tl !! branchId m).
  - left. unfold tl_createBranch.
    destruct (nodes tl !! activeNodeId tl) as [an|]; [|done].
    by destruct (_ >=? _).
  - by left.
  - left. unfold tl_navigateToCheckpoint.
    destruct (checkpoints tl !! checkpointName) as [j|]; [|done].
    destruct (truthy j); [|done]. unfold tl_navigateToNode.
    destruct (nodes tl !! j) as [m|]; [|done].
    by destruct (branches tl !! branchId m).
Qed.

(** A property of node stores that holds of a store with one parentless
    node and survives the insertion of a node holds in every reachable
    state. *)
Lemma reachable_nodes_invariant (P : gmap string TimelineNode → Prop) :
  (∀ k n, node_id n = k → parentId n = None → childrenIds n = [] →
          stepNumber n = 1 → P {[k := n]}) →
  (∀ nds a an v nn,
     P nds → nds !! a = Some an → nds !! v = None →
     parentId nn = Some a → childrenIds nn = [] →
     stepNumber nn = stepNumber an + 1 →
     P (<[v := nn]> (<[a := push_child v an]> nds))) →
  ∀ s pid tl, reachable s → timelines s !! pid = Some tl → P (nodes tl).
Proof.
  intros Hinit Hins s pid tl Hr. revert pid tl.
  induction Hr as [opts|s op Hr IH Hf]; intros pid tl.
  - destruct opts; simpl; by rewrite lookup_empty.
  - pose proof (reachable_service_ok _ Hr) as Hs.
    rewrite exec_slot by by apply service_ok_keyed.
    case_decide as Hp; [|by apply IH].
    assert (∀ q d b c n t, P (nodes (initial_timeline q d b c n t))) as Hi.
    { intros. unfold initial_timeline, createTimeline. simpl. by apply Hinit. }
    destruct (timelines s !! pid) as [tl0|] eqn:E.
    + intros Hex. destruct (Hs _ _ E) as [_ Hwf].
      assert ((∃ d b c n t, op = OpCreateTimeline (op_pid op) d b c n t) ∨
              match op with OpCreateTimeline _ _ _ _ _ _ => False | _ => True end)
        as [(d & b & c & n & t & Hop)|Hnc].
      { destruct op; [left; by eexists _, _, _, _, _|by right..]. }
      { rewrite Hop in Hex. simpl in Hex. injection Hex as <-.
        apply Hi. }
      destruct (tl_exec_nodes (options s) op tl0 tl Hwf) as
        [->|(an & nodeData & v & ts & Han & Hfresh & Hv & ->)]; try done.
      * apply (uuid_fresh_local _ s); [done|by rewrite Hp].
      * by apply (IH pid).
      * apply Hins; try done. by apply (IH pid).
    + destruct op; simpl; try done. intros [= <-]. apply Hi.
Qed.

(** ** Every stored node is connected to every other *)

Lemma reachable_single_root s pid tl :
  reachable s → timelines s !! pid = Some tl → single_root (nodes tl).
Proof.
  apply (reachable_nodes_invariant single_root).
  - intros k n _ _ _ _ k1 n1 k2 n2.
    by intros [<- _]%lookup_singleton_Some [<- _]%lookup_singleton_Some.
  - intros nds a an v nn HP Ha Hv Hpar _ _.
    assert (∀ k n, <[v:=nn]> (<[a:=push_child v an]> nds) !! k = Some n →
                   parentId n = None →
                   ∃ n0, nds !! k = Some n0 ∧ parentId n0 = None) as Hold.
    { intros k n. rewrite lookup_insert. case_decide.
      - intros [= <-]. congruence.
      - rewrite lookup_insert. case_decide.
        + intros [= <-] Hp. subst k. by exists an.
        + intros Hk Hp. by exists n. }
    intros k1 n1 k2 n2 H1 H2 Hp1 Hp2.
    destruct (Hold _ _ H1 Hp1) as (m1 & Hm1 & Hq1).
    destruct (Hold _ _ H2 Hp2) as (m2 & Hm2 & Hq2).
    by apply (HP k1 m1 k2 m2).
Qed.

Lemma adjacent_sym tl u v :
  well_formed tl → adjacent (nodes tl) u v → adjacent (nodes tl) v u.
Proof.
  intros Hwf (nu & Hu & Hadj).
  destruct (wf_links _ Hwf) as [Hup Hdown].
  destruct (h_key _ _ (wf_history _ Hwf) _ _ Hu) as [Hid Htu].
  destruct Hadj as [Hc|[Hp Htv]].
  - destruct (Hdown _ _ _ Hu Hc) as (cn & Hcn & Hcp).
    exists cn. split; [done|]. right. by rewrite Hcp, Hid.
  - destruct (Hup _ _ _ Hu Hp) as (pn & Hpn & _ & Hin).
    exists pn. split; [done|]. left. by rewrite <- Hid.
Qed.

Lemma rtc_adjacent_sym tl u v :
  well_formed tl → rtc (adjacent (nodes tl)) u v → rtc (adjacent (nodes tl)) v u.
Proof.
  intros Hwf. induction 1 as [|x y z Hxy _ IH]; [done|].
  apply (rtc_r _ y); [done|]. by apply adjacent_sym.
Qed.

Lemma to_root tl :
  well_formed tl →
  ∀ (m : nat) k n, nodes tl !! k = Some n → stepNumber n = Z.of_nat m →
    ∃ r rn, nodes tl !! r = Some rn ∧ parentId rn = None ∧
            rtc (adjacent (nodes tl)) k r.
Proof.
  intros Hwf. pose proof (wf_history _ Hwf) as Hh.
  induction m as [|m IH]; intros k n Hk Hstep.
  - pose proof (h_pos _ _ Hh _ _ Hk). lia.
  - destruct (parentId n) as [p|] eqn:Hp; [|by exists k, n].
    destruct (h_parent _ _ Hh _ _ _ Hk Hp) as (pn & Hpn & Hs).
    destruct (h_key _ _ Hh _ _ Hpn) as [_ Htp].
    destruct (IH p pn Hpn ltac:(lia)) as (r & rn & Hr & Hroot & Hrtc).
    exists r, rn. repeat (split; [done|]).
    apply (rtc_l _ _ p); [|done]. exists n. split; [done|]. by right.
Qed.

Lemma reachable_connected s pid tl a b :
  reachable s → timelines s !! pid = Some tl →
  is_Some (nodes tl !! a) → is_Some (nodes tl !! b) →
  rtc (adjacent (nodes tl)) a b.
Proof.
  intros Hr E [na Ha] [nb Hb].
  pose proof (reachable_well_formed _ _ _ Hr E) as Hwf.
  pose proof (h_pos _ _ (wf_history _ Hwf)) as Hpos.
  destruct (to_root tl Hwf (Z.to_nat (stepNumber na)) a na Ha)
    as (ra & rna & Hra & Hpa & Hrtca); [specialize (Hpos _ _ Ha); lia|].
  destruct (to_root tl Hwf (Z.to_nat (stepNumber nb)) b nb Hb)
    as (rb & rnb & Hrb & Hpb & Hrtcb); [specialize (Hpos _ _ Hb); lia|].
  assert (ra = rb) as ->
    by exact (reachable_single_root _ _ _ Hr E _ _ _ _ Hra Hrb Hpa Hpb).
  etrans; [exact Hrtca|]. by apply rtc_adjacent_sym.
Qed.

(** ** The search finds what can be reached *)

Lemma search_ok_closed nds e visited :
  search_ok nds e [] visited → False.
Proof.
  intros (He & Hcl & u & [Hu|Hu] & Hrtc); [|by apply elem_of_nil in Hu].
  apply He. clear He. induction Hrtc as [|x y z Hxy _ IH]; [done|].
  apply IH. destruct (Hcl _ _ Hu Hxy) as [|Hq]; [done|].
  by apply elem_of_nil in Hq.
Qed.

Lemma visited_add_here k (visited : gset string) : k ∈ {[k]} ∪ visited.
Proof. set_solver. Qed.

Lemma visited_add_old k y (visited : gset string) :
  y ∈ visited → y ∈ {[k]} ∪ visited.
Proof. set_solver. Qed.

Lemma visited_add_not k e (visited : gset string) :
  k ≠ e → e ∉ visited → e ∉ {[k]} ∪ visited.
Proof.
  intros Hne Hv [H|H]%elem_of_union; [|done].
  apply elem_of_singleton in H. congruence.
Qed.

Lemma findPath_loop_complete nds e :
  is_Some (nds !! e) →
  ∀ fuel queue visited r,
    search_ok nds e queue visited →
    findPath_loop fuel nds e queue visited = Some r → r ≠ None.
Proof.
  intros [ne Hne]. induction fuel as [|fuel IH];
    intros queue visited r Hok Hr; [done|].
  destruct queue as [|[k path] queue]; [by apply search_ok_closed in Hok|].
  simpl in Hr. destruct Hok as (He & Hcl & u & Hu & Hrtc).
  case_decide as Hv.
  - apply (IH _ _ _) in Hr; [done|]. split; [done|]. split.
    + intros x y Hx Hxy. destruct (Hcl _ _ Hx Hxy) as [|Hq]; [by left|].
      rewrite fmap_cons in Hq. apply elem_of_cons in Hq as [->|Hq];
        [by left|by right].
    + exists u. split; [|done]. destruct Hu as [|Hq]; [by left|].
      rewrite fmap_cons in Hq. apply elem_of_cons in Hq as [->|Hq];
        [by left|by right].
  - destruct (nds !! k) as [node|] eqn:Hk.
    + case_decide as Hke; [by injection Hr as <-|].
      set (q1 := (queue ++ ((λ c, (c, (path ++ [node])%list))
                              <$> childrenIds node))%list) in *.
      match type of Hr with
      | findPath_loop _ _ _ ?q _ = _ => set (q2 := q) in *
      end.
      apply (IH _ _ _) in Hr; [done|]. clear Hr.
      assert (∀ y, y ∈ ((k, path) :: queue).*1 →
                   y ∈ {[k]} ∪ visited ∨ y ∈ (q1.*1)) as Hq1.
      { intros y Hy. rewrite fmap_cons in Hy.
        apply elem_of_cons in Hy as [->|Hy]; [left; apply visited_add_here|].
        right. subst q1. rewrite fmap_app. apply elem_of_app. by left. }
      assert (∀ y, y ∈ (q1.*1) → y ∈ (q2.*1)) as Hq2.
      { intros y Hy. subst q2. destruct (parentId node) as [p|]; [|done].
        destruct (truthy p && negb (bool_decide (p ∈ {[k]} ∪ visited)));
          [|done].
        rewrite fmap_app. apply elem_of_app. by left. }
      assert (∀ y, adjacent nds k y → y ∈ {[k]} ∪ visited ∨ y ∈ (q2.*1))
        as Hadj.
      { intros y (nk & Hnk & Hy). rewrite Hk in Hnk. injection Hnk as <-.
        destruct Hy as [Hc|[Hp Ht]].
        - right. apply Hq2. subst q1. rewrite fmap_app. apply elem_of_app.
          right. rewrite <- list_fmap_compose. apply list_elem_of_fmap.
          by exists y.
        - destruct (decide (y ∈ {[k]} ∪ visited)) as [Hin|Hnin]; [by left|].
          right. subst q2. rewrite Hp, Ht.
          rewrite bool_decide_eq_false_2 by done. simpl.
          rewrite fmap_app. apply elem_of_app. right. simpl.
          apply list_elem_of_here. }
      split; [by apply visited_add_not|]. split.
      * intros x y [Hx|Hx]%elem_of_union Hxy.
        -- apply elem_of_singleton in Hx. subst x. by apply Hadj.
        -- destruct (Hcl _ _ Hx Hxy) as [|Hq]; [left; by apply visited_add_old|].
           destruct (Hq1 _ Hq) as [|Hq']; [by left|]. right. by apply Hq2.
      * destruct (decide (u = k)) as [->|Huk].
        -- apply rtc_inv in Hrtc as [->|(y & Hky & Hrtc)]; [done|].
           exists y. split; [|done]. by apply Hadj.
        -- exists u. split; [|done]. destruct Hu as [|Hq]; [left; by apply visited_add_old|].
           destruct (Hq1 _ Hq) as [|Hq']; [by left|]. right. by apply Hq2.
    + apply (IH _ _ _) in Hr; [done|]. clear Hr.
      assert (k ≠ e) as Hke by (intros ->; congruence).
      split; [by apply visited_add_not|]. split.
      * intros x y [Hx|Hx]%elem_of_union Hxy.
        -- apply elem_of_singleton in Hx. subst x.
           destruct Hxy as (nk & Hnk & _). congruence.
        -- destruct (Hcl _ _ Hx Hxy) as [|Hq]; [left; by apply visited_add_old|].
           rewrite fmap_cons in Hq. apply elem_of_cons in Hq as [->|Hq];
             [left; apply visited_add_here|by right].
      * destruct (decide (u = k)) as [->|Huk].
        -- apply rtc_inv in Hrtc as [->|(y & (nk & Hnk & _) & _)]; congruence.
        -- exists u. split; [|done]. destruct Hu as [|Hq]; [left; by apply visited_add_old|].
           rewrite fmap_cons in Hq. apply elem_of_cons in Hq as [->|Hq];
             [done|by right].
Qed.

Lemma search_finds s pid tl a b :
  reachable s → timelines s !! pid = Some tl →
  is_Some (nodes tl !! a) → is_Some (nodes tl !! b) →
  ∃ path, ∀ fuel, (store_weight (nodes tl) + 2 ≤ fuel)%nat →
                  findPathBetweenNodes fuel tl a b = Some (Some path).
Proof.
  intros Hr E Ha Hb.
  destruct (search_total tl a b) as [r Hrun].
  pose proof (Hrun _ (le_n _)) as H0. unfold findPathBetweenNodes in H0.
  apply (findPath_loop_complete (nodes tl) b Hb) in H0.
  - destruct r as [path|]; [|done]. by exists path.
  - split; [set_solver|]. split; [set_solver|].
    exists a. split; [right; simpl; apply list_elem_of_here|].
    by apply (reachable_connected s pid).
Qed.

(** X10: in every reachable state [findPathBetweenNodes] returns a path
    between any two stored nodes of a timeline (never [null]), with any
    fuel beyond the weight of the node store. *)
Theorem findPathBetweenNodes_finds_path s pid tl a b :
  reachable s → timelines s !! pid = Some tl →
  is_Some (nodes tl !! a) → is_Some (nodes tl !! b) →
  ∃ path, ∀ fuel, (store_weight (nodes tl) + 2 ≤ fuel)%nat →
                  findPathBetweenNodes fuel tl a b = Some (Some path).
Proof.
  intros Hr E Ha Hb.
  destruct (search_total tl a b) as [r Hrun].
  pose proof (Hrun _ (le_n _)) as H0. unfold findPathBetweenNodes in H0.
  apply (findPath_loop_complete (nodes tl) b Hb) in H0.
  - destruct r as [path|]; [|done]. by exists path.
  - split; [set_solver|]. split; [set_solver|].
    exists a. split; [right; simpl; apply list_elem_of_here|].
    by apply (reachable_connected s pid).
Qed.

Lemma chain_reachable : reachable chain_service.
Proof.
  apply reachable_run; [apply reach_new|]. vm_compute. repeat split.
Qed.

Lemma findPathBetweenNodes_finds_path_witness :
  ∃ path, ∀ fuel,
    (store_weight (nodes (timeline_of chain_service "P1")) + 2 ≤ fuel)%nat →
    findPathBetweenNodes fuel (timeline_of chain_service "P1") "n4" "n0"
    = Some (Some path).
Proof.
  apply (findPathBetweenNodes_finds_path chain_service "P1").
  - exact chain_reachable.
  - vm_compute. reflexivity.
  - vm_compute. by eexists.
  - vm_compute. by eexists.
Defined.

(** ** The summary of changes *)

Lemma count_type_cons t n l :
  count_type t (n :: l)
  = (if decide (node_type n = t) then 1 else 0) + count_type t l.
Proof.
  unfold count_type. rewrite filter_cons. case_decide; simpl; lia.
Qed.

Lemma tally_fold l : ∀ d c p u e a l0,
  foldl tally (mkChanges d c p u e a l0) l
  = mkChanges (d + count_type decision l) (c + count_type code l)
              (p + count_type plan l) (u + count_type user_edit l)
              (e + count_type explanation l) (a + count_type alternative l) l0.
Proof.
  induction l as [|n l IH]; intros d c p u e a l0; simpl.
  - unfold count_type. simpl. f_equal; lia.
  - rewrite !count_type_cons.
    destruct (node_type n) eqn:Ht; simpl; rewrite IH;
      repeat (rewrite decide_True by done || rewrite decide_False by done);
      f_equal; lia.
Qed.

(** X11: when [getChangesSummary] returns a summary, its node list is the
    path found by the search without the start node, and each counter is
    the number of nodes of its type in that list; so the six counters add up
    to the length of the list. *)
Theorem getChangesSummary_counts s pid a b fuel ch :
  getChangesSummary s pid a b fuel = Some (Some ch) →
  ∃ tl path,
    timelines s !! pid = Some tl ∧
    findPathBetweenNodes fuel tl a b = Some (Some path) ∧
    changed_nodes ch = drop 1 path ∧
    decisions ch = count_type decision (changed_nodes ch) ∧
    codeChanges ch = count_type code (changed_nodes ch) ∧
    planUpdates ch = count_type plan (changed_nodes ch) ∧
    userEdits ch = count_type user_edit (changed_nodes ch) ∧
    explanations ch = count_type explanation (changed_nodes ch) ∧
    alternatives ch = count_type alternative (changed_nodes ch) ∧
    decisions ch + codeChanges ch + planUpdates ch + userEdits ch
    + explanations ch + alternatives ch
    = Z.of_nat (length (changed_nodes ch)).
Proof.
  unfold getChangesSummary, getTimeline.
  destruct (timelines s !! pid) as [tl|] eqn:E; [|done].
  destruct (nodes tl !! a) as [na|]; [|done].
  destruct (nodes tl !! b) as [nb|]; [|done].
  destruct (findPathBetweenNodes fuel tl a b) as [[path|]|] eqn:Hp; try done.
  rewrite tally_fold. intros [= <-]. exists tl, path. simpl.
  repeat (split; [done|]).
  generalize (drop 1 path). intros l. induction l as [|n l IH]; [done|].
  rewrite !count_type_cons. cbn [length]. rewrite Nat2Z.inj_succ.
  destruct (node_type n); repeat case_decide; try done; lia.
Qed.

Lemma getChangesSummary_counts_witness :
  ∃ tl path,
    timelines chain_service !! "P1" = Some tl ∧
    findPathBetweenNodes 9 tl "n0" "n2" = Some (Some path) ∧
    changed_nodes (mkChanges 0 0 2 0 0 0
                     [chain_step 1 "n1" "n0" ["n2"];
                      chain_step 2 "n2" "n1" ["n3"]]) = drop 1 path.
Proof.
  destruct (getChangesSummary_counts chain_service "P1" "n0" "n2" 9
              (mkChanges 0 0 2 0 0 0
                 [chain_step 1 "n1" "n0" ["n2"]; chain_step 2 "n2" "n1" ["n3"]]))
    as (tl & path & H1 & H2 & H3 & _).
  - vm_compute. reflexivity.
  - exists tl, path. split; [exact H1|]. split; [exact H2|exact H3].
Defined.

(** X12: in every reachable state [getChangesSummary] (with fuel beyond the
    weight of the node store) returns [null] exactly when the start node or
    the end node is not stored; between a stored node and itself it reports
    no change at all. *)
Theorem getChangesSummary_defined s pid tl a b :
  reachable s → timelines s !! pid = Some tl →
  (∃ r, (∀ fuel, (store_weight (nodes tl) + 2 ≤ fuel)%nat →
                 getChangesSummary s pid a b fuel = Some r) ∧
        (r = None ↔ nodes tl !! a = None ∨ nodes tl !! b = None)) ∧
  (is_Some (nodes tl !! a) →
   ∀ fuel, getChangesSummary s pid a a (S fuel)
           = Some (Some (mkChanges 0 0 0 0 0 0 []))).
Proof.
  intros Hr E. split.
  - unfold getChangesSummary, getTimeline. rewrite E.
    destruct (nodes tl !! a) as [na|] eqn:Ha;
      [|exists None; split; [done|]; split; [by left|done]].
    destruct (nodes tl !! b) as [nb|] eqn:Hb;
      [|exists None; split; [done|]; split; [by right|done]].
    destruct (search_finds s pid tl a b Hr E) as [path Hp];
      [by eexists|by eexists|].
    eexists (Some _). split.
    + intros fuel Hf. by rewrite (Hp fuel Hf).
    + split; [done|]. by intros [|].
  - intros [na Ha] fuel. unfold getChangesSummary, getTimeline.
    rewrite E, Ha. unfold findPathBetweenNodes.
    rewrite (findPath_loop_found _ _ _ _ _ _ na); [done| |done].
    apply not_elem_of_empty.
Qed.

Lemma getChangesSummary_defined_witness :
  (∃ r, (∀ fuel,
           (store_weight (nodes (timeline_of chain_service "P1")) + 2 ≤ fuel)%nat →
           getChangesSummary chain_service "P1" "n1" "n9" fuel = Some r) ∧
        (r = None ↔ nodes (timeline_of chain_service "P1") !! "n1" = None ∨
                    nodes (timeline_of chain_service "P1") !! "n9" = None)) ∧
  (is_Some (nodes (timeline_of chain_service "P1") !! "n1") →
   ∀ fuel, getChangesSummary chain_service "P1" "n1" "n1" (S fuel)
           = Some (Some (mkChanges 0 0 0 0 0 0 []))).
Proof.
  apply (getChangesSummary_defined chain_service "P1").
  - exact chain_reachable.
  - vm_compute. reflexivity.
Defined.

(** ** Alternative paths *)

Lemma reachable_steps_bounded s pid tl :
  reachable s → timelines s !! pid = Some tl → steps_bounded (nodes tl).
Proof.
  apply (reachable_nodes_invariant steps_bounded).
  - intros k n _ _ _ Hs j m [<- <-]%lookup_singleton_Some.
    rewrite map_size_singleton. lia.
  - intros nds a an v nn HP Ha Hv _ _ Hs.
    assert (a ≠ v) as Hne by (intros ->; congruence).
    assert (size (<[v:=nn]> (<[a:=push_child v an]> nds)) = S (size nds)) as Hsz.
    { rewrite map_size_insert_None by by rewrite lookup_insert_ne.
      rewrite map_size_insert_Some; [done|]. by eexists. }
    intros k n. rewrite Hsz, lookup_insert. case_decide.
    + intros [= <-]. specialize (HP _ _ Ha). lia.
    + rewrite lookup_insert. case_decide.
      * intros [= <-]. specialize (HP _ _ Ha). simpl. lia.
      * intros Hk. specialize (HP _ _ Hk). lia.
Qed.

Lemma descends_snoc l x y :
  descends l → last l = Some x → head (childrenIds x) = Some (node_id y) →
  descends (l ++ [y]).
Proof.
  induction l as [|a [|b l] IH]; simpl; intros Hl Hx Hy; [done| |].
  - injection Hx as ->. done.
  - destruct Hl as [Hab Hl]. split; [done|]. by apply IH.
Qed.

Lemma descends_cons x l :
  descends l → (∀ y, head l = Some y → head (childrenIds x) = Some (node_id y)) →
  descends (x :: l).
Proof. destruct l as [|y l]; [done|]. intros Hl Hy. split; [by apply Hy|done]. Qed.

Lemma buildPathFromNode_loop_spec tl :
  well_formed tl → steps_bounded (nodes tl) →
  ∀ (m : nat) k n acc,
    nodes tl !! k = Some n →
    Z.of_nat (size (nodes tl)) - stepNumber n ≤ Z.of_nat m →
    ∃ suffix,
      (∀ fuel, (m < fuel)%nat →
               buildPathFromNode_loop fuel (nodes tl) k acc
               = Some (acc ++ suffix)%list) ∧
      alternative_of (nodes tl) k suffix.
Proof.
  intros Hwf Hb. pose proof (wf_history _ Hwf) as Hh.
  destruct (wf_links _ Hwf) as [_ Hdown].
  induction m as [|m IH]; intros k n acc Hk Hm;
    destruct (h_key _ _ Hh _ _ Hk) as [Hid Htk];
    destruct (childrenIds n) as [|c cs] eqn:Hc.
  - exists [n]. split.
    + intros [|fuel] Hf; [lia|]. simpl. by rewrite Htk, Hk, Hc.
    + split; [by exists n|]. split; [done|]. split; [|by exists n].
      intros x Hx. apply list_elem_of_singleton in Hx. subst x. by rewrite Hid.
  - destruct (Hdown k n c Hk) as (cn & Hcn & Hp);
      [rewrite Hc; apply list_elem_of_here|].
    destruct (h_parent _ _ Hh _ _ _ Hcn Hp) as (pn & Hpn & Hs).
    rewrite Hid, Hk in Hpn. injection Hpn as <-.
    specialize (Hb _ _ Hcn). lia.
  - exists [n]. split.
    + intros [|fuel] Hf; [lia|]. simpl. by rewrite Htk, Hk, Hc.
    + split; [by exists n|]. split; [done|]. split; [|by exists n].
      intros x Hx. apply list_elem_of_singleton in Hx. subst x. by rewrite Hid.
  - destruct (Hdown k n c Hk) as (cn & Hcn & Hp);
      [rewrite Hc; apply list_elem_of_here|].
    destruct (h_parent _ _ Hh _ _ _ Hcn Hp) as (pn & Hpn & Hs).
    rewrite Hid, Hk in Hpn. injection Hpn as <-.
    destruct (IH c cn (acc ++ [n])%list Hcn ltac:(lia))
      as (suffix & Hrun & (cn' & Hhd & Hcid) & Hdesc & Hst & leaf & Hlast & Hleaf).
    exists (n :: suffix). split.
    + intros [|fuel] Hf; [lia|]. simpl. rewrite Htk, Hk, Hc.
      rewrite Hrun by lia. by rewrite <- app_assoc.
    + split; [by exists n|]. split; [|split].
      * apply descends_cons; [done|]. intros y Hy. rewrite Hc. simpl.
        rewrite Hhd in Hy. injection Hy as <-. by rewrite Hcid.
      * intros x [->|Hx]%elem_of_cons; [by rewrite Hid|by apply Hst].
      * exists leaf. split; [|done]. destruct suffix; [done|]. done.
Qed.

Lemma alternativePaths_loop_spec tl :
  well_formed tl → steps_bounded (nodes tl) →
  ∀ children acc,
    (∀ c, c ∈ children → is_Some (nodes tl !! c)) →
    ∃ paths,
      (∀ fuel, (size (nodes tl) < fuel)%nat →
               alternativePaths_loop fuel tl children acc
               = Some (acc ++ paths)%list) ∧
      Forall2 (alternative_of (nodes tl)) children paths.
Proof.
  intros Hwf Hb. induction children as [|c cs IH]; intros acc Hst.
  - exists []. split; [|done]. intros fuel _. simpl. by rewrite app_nil_r.
  - destruct (Hst c) as [cn Hcn]; [apply list_elem_of_here|].
    pose proof (h_pos _ _ (wf_history _ Hwf) _ _ Hcn) as Hpos.
    destruct (buildPathFromNode_loop_spec tl Hwf Hb
                (Z.to_nat (Z.of_nat (size (nodes tl)) - stepNumber cn))
                c cn [] Hcn ltac:(lia)) as (p & Hrun & Halt).
    assert ((0 <? length p)%nat = true) as Hlen.
    { destruct Halt as ((x & Hx & _) & _). destruct p; [done|]. done. }
    destruct (IH (acc ++ [p])%list) as (ps & Hruns & Hall).
    { intros c' Hc'. apply Hst. by apply list_elem_of_further. }
    exists (p :: ps). split; [|by constructor].
    intros fuel Hf. simpl. unfold buildPathFromNode.
    rewrite Hrun by lia. simpl. rewrite Hlen, Hruns by done.
    by rewrite <- app_assoc.
Qed.

(** X13: in every reachable state [getAlternativePaths] on a stored node
    returns one path per child of the node, in the order of its children:
    the path of a child starts at that child, goes down from each node to
    its first child, and ends at a node without children.  Fuel beyond the
    number of stored nodes is enough. *)
Theorem getAlternativePaths_one_per_child s pid tl k n :
  reachable s → timelines s !! pid = Some tl → nodes tl !! k = Some n →
  ∃ paths,
    (∀ fuel, (size (nodes tl) < fuel)%nat →
             getAlternativePaths s pid k fuel = Some paths) ∧
    Forall2 (alternative_of (nodes tl)) (childrenIds n) paths.
Proof.
  intros Hr E Hk. pose proof (reachable_well_formed _ _ _ Hr E) as Hwf.
  destruct (alternativePaths_loop_spec tl Hwf
              (reachable_steps_bounded _ _ _ Hr E) (childrenIds n) [])
    as (paths & Hrun & Hall).
  - intros c Hc. destruct (proj2 (wf_links _ Hwf) _ _ _ Hk Hc) as (cn & Hcn & _).
    by eexists.
  - exists paths. split; [|done]. intros fuel Hf.
    unfold getAlternativePaths, getTimeline. rewrite E, Hk. by apply Hrun.
Qed.

Lemma branching_reachable : reachable branching_service.
Proof.
  apply reachable_run; [apply reach_new|]. vm_compute. repeat split.
Qed.

Lemma getAlternativePaths_one_per_child_witness :
  ∃ paths,
    (∀ fuel, (size (nodes (timeline_of branching_service "P1")) < fuel)%nat →
             getAlternativePaths branching_service "P1" "n0" fuel = Some paths) ∧
    Forall2 (alternative_of (nodes (timeline_of branching_service "P1")))
            ["n1"; "n2"] paths.
Proof.
  apply (getAlternativePaths_one_per_child branching_service "P1"
           (timeline_of branching_service "P1") "n0"
           (mkNode "n0" 0 plan "Project Initialization" "demo"
              "Project initialized with description: demo" ∅ None
              ["n1"; "n2"] "b0" 1)).
  - exact branching_reachable.
  - vm_compute. reflexivity.
  - vm_compute. reflexivity.
Defined.

(** ** Comparing two nodes *)

(** X14: [compareNodes] returns [null] exactly when the timeline or one of
    the two nodes is missing.  Otherwise the two summaries carry the [id],
    [title], [type] and [content] of the nodes stored under the two ids, and
    each flag of [differences] is set exactly when the two stored nodes
    differ in that field; so a node compared with itself shows no
    difference, and comparing in the other order swaps the two summaries
    and keeps the flags. *)
Theorem compareNodes_differences s pid a b :
  (compareNodes s pid a b = None ↔
   ¬ ∃ tl na nb, timelines s !! pid = Some tl ∧ nodes tl !! a = Some na ∧
                 nodes tl !! b = Some nb) ∧
  (∀ c, compareNodes s pid a b = Some c →
     (diff_title (differences c) = false ↔ sum_title (node1 c) = sum_title (node2 c)) ∧
     (diff_type (differences c) = false ↔ sum_type (node1 c) = sum_type (node2 c)) ∧
     (diff_content (differences c) = false ↔
      sum_content (node1 c) = sum_content (node2 c)) ∧
     (a = b → differences c = mkDifferences false false false) ∧
     compareNodes s pid b a
     = Some (mkComparison (node2 c) (node1 c) (differences c))) ∧
  (∀ tl na nb,
     timelines s !! pid = Some tl → nodes tl !! a = Some na →
     nodes tl !! b = Some nb →
     ∃ c, compareNodes s pid a b = Some c ∧
          (sum_id (node1 c) = node_id na ∧ sum_title (node1 c) = title na ∧
           sum_type (node1 c) = node_type na ∧
           sum_content (node1 c) = content na) ∧
          (sum_id (node2 c) = node_id nb ∧ sum_title (node2 c) = title nb ∧
           sum_type (node2 c) = node_type nb ∧
           sum_content (node2 c) = content nb) ∧
          (diff_title (differences c) = true ↔ title na ≠ title nb) ∧
          (diff_type (differences c) = true ↔ node_type na ≠ node_type nb) ∧
          (diff_content (differences c) = true ↔ content na ≠ content nb)).
Proof.
  split; [|split].
  - unfold compareNodes, getTimeline.
    destruct (timelines s !! pid) as [tl|];
      [|split; [by intros _ (? & ? & ? & ? & _)|done]].
    destruct (nodes tl !! a) as [na|] eqn:Ha.
    2:{ split; [|done]. intros _ (tl0 & na & nb & [= <-] & Ha' & _). congruence. }
    destruct (nodes tl !! b) as [nb|] eqn:Hb.
    2:{ split; [|done]. intros _ (tl0 & na' & nb & [= <-] & _ & Hb'). congruence. }
    split; [done|]. intros H. exfalso. apply H. by exists tl, na, nb.
  - unfold compareNodes, getTimeline.
    destruct (timelines s !! pid) as [tl|]; [|done].
    destruct (nodes tl !! a) as [na|] eqn:Ha; [|done].
    destruct (nodes tl !! b) as [nb|] eqn:Hb; [|done].
    intros c [= <-]. simpl.
    split; [by rewrite negb_false_iff, bool_decide_eq_true|].
    split; [by rewrite negb_false_iff, bool_decide_eq_true|].
    split; [by rewrite negb_false_iff, bool_decide_eq_true|].
    split.
    + intros ->. rewrite Ha in Hb. injection Hb as <-.
      by rewrite !bool_decide_eq_true_2.
    + do 3 f_equal; f_equal; apply bool_decide_ext; split; congruence.
  - intros tl na nb E Ha Hb. unfold compareNodes, getTimeline.
    rewrite E, Ha, Hb. eexists. split; [done|]. simpl.
    split; [done|]. split; [done|].
    split; [by rewrite negb_true_iff, bool_decide_eq_false|].
    split; by rewrite negb_true_iff, bool_decide_eq_false.
Qed.

Lemma compareNodes_differences_witness :
  let na := chain_root in
  let nb := chain_step 1 "n1" "n0" ["n2"] in
  compareNodes chain_service "P1" "n1" "n0"
  = Some (mkComparison (mkSummary "n1" "step" plan "text")
            (mkSummary "n0" "Project Initialization" plan
               "Project initialized with description: demo")
            (mkDifferences true false true)) ∧
  ∃ c, compareNodes chain_service "P1" "n0" "n1" = Some c ∧
       (sum_id (node1 c) = node_id na ∧ sum_title (node1 c) = title na ∧
        sum_type (node1 c) = node_type na ∧
        sum_content (node1 c) = content na) ∧
       (sum_id (node2 c) = node_id nb ∧ sum_title (node2 c) = title nb ∧
        sum_type (node2 c) = node_type nb ∧
        sum_content (node2 c) = content nb) ∧
       (diff_title (differences c) = true ↔ title na ≠ title nb) ∧
       (diff_type (differences c) = true ↔ node_type na ≠ node_type nb) ∧
       (diff_content (differences c) = true ↔ content na ≠ content nb).
Proof.
  intros na nb.
  destruct (compareNodes_differences chain_service "P1" "n0" "n1")
    as (_ & H & Hstored).
  split.
  - destruct (H (mkComparison
                   (mkSummary "n0" "Project Initialization" plan
                      "Project initialized with description: demo")
                   (mkSummary "n1" "step" plan "text")
                   (mkDifferences true false true)))
      as (_ & _ & _ & _ & Hswap).
    + vm_compute. reflexivity.
    + exact Hswap.
  - apply (Hstored (timeline_of chain_service "P1") na nb).
    + vm_compute. reflexivity.
    + vm_compute. reflexivity.
    + vm_compute. reflexivity.
Defined.

(** ** The graph view *)

Lemma elem_of_values {A} (m : gmap string A) x :
  x ∈ values m ↔ ∃ k, m !! k = Some x.
Proof.
  unfold values. rewrite list_elem_of_fmap. split.
  - intros ([k y] & -> & Hin). exists k. by apply elem_of_map_to_list.
  - intros (k & Hk). exists (k, x). split; [done|].
    by apply elem_of_map_to_list.
Qed.

Lemma length_values {A} (m : gmap string A) : length (values m) = size m.
Proof. unfold values. by rewrite length_fmap, length_map_to_list. Qed.

Lemma values_one {A} (m : gmap string A) (idf : A → string) a xa :
  (∀ k x, m !! k = Some x → idf x = k) → m !! a = Some xa →
  length (filter (λ x, idf x = a) (values m)) = 1%nat.
Proof.
  intros Hkey Ha. unfold values.
  rewrite <- (map_to_list_delete m a xa Ha). simpl.
  rewrite filter_cons_True by by apply (Hkey a).
  simpl. f_equal. apply length_zero_iff_nil.
  assert (Forall (λ kv : string * A, idf kv.2 ≠ a) (map_to_list (delete a m)))
    as Hall.
  { apply Forall_forall. intros [k x] Hin. apply elem_of_map_to_list in Hin.
    simpl. destruct (decide (k = a)) as [->|Hne];
      [by rewrite lookup_delete_eq in Hin|].
    rewrite lookup_delete_ne in Hin by done. by rewrite (Hkey _ _ Hin). }
  induction Hall as [|kv l Hx _ IH]; [done|].
  simpl. by rewrite filter_cons_False.
Qed.

Lemma filter_flag {A B} (f : A → B) (flag : B → bool) (P : A → Prop)
    `{∀ x, Decision (P x)} (l : list A) :
  (∀ x, flag (f x) = true ↔ P x) →
  length (filter (λ y, flag y = true) (f <$> l)) = length (filter P l).
Proof.
  intros Hf. induction l as [|x l IH]; [done|].
  rewrite fmap_cons, !filter_cons. specialize (Hf x).
  destruct (decide (flag (f x) = true)), (decide (P x)); simpl; try tauto; lia.
Qed.

Lemma values_ids {A} (m : gmap string A) (idf : A → string) :
  (∀ k x, m !! k = Some x → idf x = k) →
  idf <$> values m = (map_to_list m).*1.
Proof.
  intros Hkey. unfold values. rewrite <- list_fmap_compose.
  apply list_eq. intros i. rewrite !list_lookup_fmap.
  destruct (map_to_list m !! i) as [[k x]|] eqn:Hi; [|done].
  simpl. f_equal. apply Hkey. apply elem_of_map_to_list.
  by apply (list_elem_of_lookup_2 _ i).
Qed.

Lemma values_ids_NoDup {A} (m : gmap string A) (idf : A → string) :
  (∀ k x, m !! k = Some x → idf x = k) → NoDup (idf <$> values m).
Proof.
  intros Hkey. rewrite (values_ids _ _ Hkey). apply NoDup_fst_map_to_list.
Qed.

(** X15: in every reachable state the graph view lists every stored node
    and every stored branch once: its nodes are exactly the entries built
    from the stored nodes, its branches exactly the entries built from the
    stored branches, no two entries share an id, and there are as many
    entries as stored nodes and branches.  It marks exactly one node as
    active, the one under the cursor, and exactly one branch, the one
    [activeBranchId] names (whatever the [isActive] flags of the stored
    branches say). *)
Theorem getVisualizationData_marks_cursor s pid tl :
  reachable s → timelines s !! pid = Some tl →
  ∃ vis,
    getVisualizationData s pid = Some vis ∧
    length (vis_nodes vis) = size (nodes tl) ∧
    length (vis_branches vis) = size (branches tl) ∧
    length (filter (λ v, vn_isActive v = true) (vis_nodes vis)) = 1%nat ∧
    (∀ v, v ∈ vis_nodes vis →
          (vn_isActive v = true ↔ vn_id v = activeNodeId tl)) ∧
    length (filter (λ b, vb_isActive b = true) (vis_branches vis)) = 1%nat ∧
    (∀ b, b ∈ vis_branches vis →
          (vb_isActive b = true ↔ vb_id b = activeBranchId tl)) ∧
    (∀ v, v ∈ vis_nodes vis ↔
          ∃ n, nodes tl !! vn_id v = Some n ∧ v = vis_node_of tl n) ∧
    (∀ k n, nodes tl !! k = Some n →
            vis_node_of tl n ∈ vis_nodes vis ∧ vn_id (vis_node_of tl n) = k) ∧
    NoDup (vn_id <$> vis_nodes vis) ∧
    (∀ b, b ∈ vis_branches vis ↔
          ∃ br, branches tl !! vb_id b = Some br ∧ b = vis_branch_of tl br) ∧
    (∀ k br, branches tl !! k = Some br →
             vis_branch_of tl br ∈ vis_branches vis ∧
             vb_id (vis_branch_of tl br) = k) ∧
    NoDup (vb_id <$> vis_branches vis).
Proof.
  intros Hr E. pose proof (reachable_well_formed _ _ _ Hr E) as Hwf.
  assert (∀ k x, nodes tl !! k = Some x → node_id x = k) as Hnk
    by (intros k x Hk; exact (proj1 (h_key _ _ (wf_history _ Hwf) _ _ Hk))).
  pose proof (wf_branch_key _ Hwf) as Hbk.
  unfold getVisualizationData, getTimeline. rewrite E.
  eexists. split; [done|]. cbn [vis_nodes vis_branches].
  change (λ node, mkVisNode (node_id node) (title node) (node_type node)
                    (branchId node) (stepNumber node)
                    (bool_decide (node_id node = activeNodeId tl)))
    with (vis_node_of tl).
  change (λ branch, mkVisBranch (branch_id branch) (branch_name branch)
                      (bool_decide (branch_id branch = activeBranchId tl))
                      (parentBranchId branch))
    with (vis_branch_of tl).
  split; [by rewrite length_fmap, length_values|].
  split; [by rewrite length_fmap, length_values|].
  destruct (wf_cursor _ Hwf) as (an & ab & Han & Hab & _).
  split; [|split; [|split; [|split]]].
  - rewrite (filter_flag _ _ (λ x, node_id x = activeNodeId tl)).
    + by apply (values_one _ node_id _ an).
    + intros x. simpl. apply bool_decide_eq_true.
  - intros v (x & -> & _)%list_elem_of_fmap. simpl. apply bool_decide_eq_true.
  - rewrite (filter_flag _ _ (λ x, branch_id x = activeBranchId tl)).
    + by apply (values_one _ branch_id _ ab).
    + intros x. simpl. apply bool_decide_eq_true.
  - intros v (x & -> & _)%list_elem_of_fmap. simpl. apply bool_decide_eq_true.
  - split; [|split; [|split; [|split; [|split]]]].
    + intros v. rewrite list_elem_of_fmap. split.
      * intros (n & -> & (k & Hk)%elem_of_values). exists n.
        split; [|done]. simpl. by rewrite (Hnk _ _ Hk).
      * intros (n & Hn & ->). exists n. split; [done|].
        apply elem_of_values. by eexists.
    + intros k n Hk. split; [|by apply Hnk].
      apply list_elem_of_fmap. exists n. split; [done|].
      apply elem_of_values. by exists k.
    + rewrite <- list_fmap_compose. by apply (values_ids_NoDup _ node_id).
    + intros b. rewrite list_elem_of_fmap. split.
      * intros (br & -> & (k & Hk)%elem_of_values). exists br.
        split; [|done]. simpl. by rewrite (Hbk _ _ Hk).
      * intros (br & Hbr & ->). exists br. split; [done|].
        apply elem_of_values. by eexists.
    + intros k br Hk. split; [|by apply Hbk].
      apply list_elem_of_fmap. exists br. split; [done|].
      apply elem_of_values. by exists k.
    + rewrite <- list_fmap_compose. by apply (values_ids_NoDup _ branch_id).
Qed.

Lemma getVisualizationData_marks_cursor_witness :
  let tl := timeline_of forked_service "P1" in
  ∃ vis,
    getVisualizationData forked_service "P1" = Some vis ∧
    length (vis_nodes vis) = size (nodes tl) ∧
    length (vis_branches vis) = size (branches tl) ∧
    length (filter (λ v, vn_isActive v = true) (vis_nodes vis)) = 1%nat ∧
    (∀ v, v ∈ vis_nodes vis →
          (vn_isActive v = true ↔ vn_id v = activeNodeId tl)) ∧
    length (filter (λ b, vb_isActive b = true) (vis_branches vis)) = 1%nat ∧
    (∀ b, b ∈ vis_branches vis →
          (vb_isActive b = true ↔ vb_id b = activeBranchId tl)) ∧
    (∀ v, v ∈ vis_nodes vis ↔
          ∃ n, nodes tl !! vn_id v = Some n ∧ v = vis_node_of tl n) ∧
    (∀ k n, nodes tl !! k = Some n →
            vis_node_of tl n ∈ vis_nodes vis ∧ vn_id (vis_node_of tl n) = k) ∧
    NoDup (vn_id <$> vis_nodes vis) ∧
    (∀ b, b ∈ vis_branches vis ↔
          ∃ br, branches tl !! vb_id b = Some br ∧ b = vis_branch_of tl br) ∧
    (∀ k br, branches tl !! k = Some br →
             vis_branch_of tl br ∈ vis_branches vis ∧
             vb_id (vis_branch_of tl br) = k) ∧
    NoDup (vb_id <$> vis_branches vis).
Proof.
  intros tl.
  apply (getVisualizationData_marks_cursor forked_service "P1" tl).
  - exact forked_reachable.
  - vm_compute. reflexivity.
Defined.

Lemma reachable_edges_counted s pid tl :
  reachable s → timelines s !! pid = Some tl → edges_counted (nodes tl).
Proof.
  apply (reachable_nodes_invariant edges_counted).
  - intros k n _ _ Hc _. unfold edges_counted, edge_total.
    rewrite map_to_list_singleton, map_size_singleton. simpl. rewrite Hc. done.
  - intros nds a an v nn HP Ha Hv _ Hc _. unfold edges_counted, edge_total in *.
    assert (a ≠ v) as Hne by (intros ->; congruence).
    rewrite map_size_insert_None by by rewrite lookup_insert_ne.
    rewrite map_size_insert_Some by by eexists.
    rewrite map_to_list_insert by by rewrite lookup_insert_ne.
    rewrite <- (insert_delete_eq nds).
    rewrite map_to_list_insert by apply lookup_delete_eq.
    rewrite <- (map_to_list_delete nds a an Ha) in HP.
    simpl in *. rewrite Hc, length_app. simpl. lia.
Qed.

Lemma length_concat_edges (l : list TimelineNode) :
  length (concat (edges_of <$> l))
  = sum_list_with (λ n, length (childrenIds n)) l.
Proof.
  induction l as [|x l IH]; [done|].
  rewrite fmap_cons. cbn [concat sum_list_with]. rewrite length_app, IH.
  unfold edges_of. by rewrite length_fmap.
Qed.

Lemma sum_values (m : gmap string TimelineNode) :
  sum_list_with (λ n, length (childrenIds n)) (values m) = edge_total m.
Proof.
  unfold values, edge_total. induction (map_to_list m) as [|kv l IH]; [done|].
  rewrite fmap_cons. cbn [sum_list_with]. by rewrite IH.
Qed.

Lemma elem_of_concat_edges e (l : list TimelineNode) :
  e ∈ concat (edges_of <$> l) ↔ ∃ n, n ∈ l ∧ e ∈ edges_of n.
Proof.
  induction l as [|x l IH].
  - simpl. split; [by intros ?%elem_of_nil|by intros (? & ?%elem_of_nil & _)].
  - rewrite fmap_cons. cbn [concat]. rewrite elem_of_app, IH. split.
    + intros [He|(n & Hn & He)].
      * exists x. split; [apply list_elem_of_here|done].
      * exists n. split; [by apply list_elem_of_further|done].
    + intros (n & [->|Hn]%elem_of_cons & He); [by left|].
      right. by exists n.
Qed.

(** X16: in every reachable state the edges of the graph view are the
    parent links of the history: each edge goes from a stored node to a
    stored node whose parent it is and is named after its two ends, every
    node with a parent has its edge, and there is one edge less than there
    are nodes. *)
Theorem getVisualizationData_edges s pid tl :
  reachable s → timelines s !! pid = Some tl →
  ∃ vis,
    getVisualizationData s pid = Some vis ∧
    (length (vis_edges vis) + 1 = length (vis_nodes vis))%nat ∧
    (∀ e, e ∈ vis_edges vis →
       ∃ nsrc ntgt,
         nodes tl !! ve_source e = Some nsrc ∧
         nodes tl !! ve_target e = Some ntgt ∧
         parentId ntgt = Some (ve_source e) ∧
         ve_id e = ve_source e ++ "-" ++ ve_target e) ∧
    (∀ k n p, nodes tl !! k = Some n → parentId n = Some p →
       mkVisEdge (p ++ "-" ++ k) p k ∈ vis_edges vis).
Proof.
  intros Hr E. pose proof (reachable_well_formed _ _ _ Hr E) as Hwf.
  pose proof (h_key _ _ (wf_history _ Hwf)) as Hkey.
  destruct (wf_links _ Hwf) as [Hup Hdown].
  unfold getVisualizationData, getTimeline. rewrite E.
  eexists. split; [done|]. simpl. split; [|split].
  - rewrite length_fmap, length_values, length_concat_edges, sum_values.
    exact (reachable_edges_counted _ _ _ Hr E).
  - intros e (n & (k & Hk)%elem_of_values & He)%elem_of_concat_edges.
    unfold edges_of in He. apply list_elem_of_fmap in He as (c & -> & Hc).
    simpl. destruct (Hkey _ _ Hk) as [Hid _].
    destruct (Hdown _ _ _ Hk Hc) as (cn & Hcn & Hp).
    exists n, cn. rewrite Hid. split; [done|]. split; [done|].
    split; [by rewrite Hp, Hid|done].
  - intros k n p Hk Hp. destruct (Hup _ _ _ Hk Hp) as (pn & Hpn & Hpid & Hin).
    apply elem_of_concat_edges. exists pn. split; [apply elem_of_values; by exists p|].
    unfold edges_of. apply list_elem_of_fmap. exists k.
    destruct (Hkey _ _ Hk) as [Hid _]. rewrite Hpid. split; [done|].
    by rewrite <- Hid.
Qed.

Lemma getVisualizationData_edges_witness :
  ∃ vis,
    getVisualizationData branching_service "P1" = Some vis ∧
    (length (vis_edges vis) + 1 = length (vis_nodes vis))%nat ∧
    (∀ e, e ∈ vis_edges vis →
       ∃ nsrc ntgt,
         nodes (timeline_of branching_service "P1") !! ve_source e = Some nsrc ∧
         nodes (timeline_of branching_service "P1") !! ve_target e = Some ntgt ∧
         parentId ntgt = Some (ve_source e) ∧
         ve_id e = ve_source e ++ "-" ++ ve_target e) ∧
    (∀ k n p, nodes (timeline_of branching_service "P1") !! k = Some n →
       parentId n = Some p → mkVisEdge (p ++ "-" ++ k) p k ∈ vis_edges vis).
Proof.
  apply (getVisualizationData_edges branching_service "P1").
  - exact branching_reachable.
  - vm_compute. reflexivity.
Defined.

(** ** Adding a node extends the current path *)

Lemma getCurrentPath_loop_acc nds :
  ∀ fuel k acc r,
    getCurrentPath_loop fuel nds k acc = Some r →
    ∃ pre, r = (pre ++ acc)%list ∧
           ∀ acc', getCurrentPath_loop fuel nds k acc' = Some (pre ++ acc')%list.
Proof.
  induction fuel as [|fuel IH]; intros k acc r Hr; [done|]. simpl in *.
  destruct (truthy k); [|injection Hr as <-; by exists []].
  destruct (nds !! k) as [n|]; [|injection Hr as <-; by exists []].
  destruct (parentId n) as [p|]; [|injection Hr as <-; by exists [n]].
  destruct (truthy p); [|injection Hr as <-; by exists [n]].
  destruct (IH _ _ _ Hr) as (pre & -> & Hrun).
  exists (pre ++ [n])%list. split; [by rewrite <- app_assoc|].
  intros acc'. rewrite Hrun. by rewrite <- app_assoc.
Qed.

Lemma getCurrentPath_loop_agree nds nds' a0 :
  history_ok nds a0 →
  ∀ (m : nat) k n,
    nds !! k = Some n → stepNumber n = Z.of_nat m →
    (∀ j nj, nds !! j = Some nj → stepNumber nj ≤ Z.of_nat m →
             nds' !! j = Some nj) →
    ∀ fuel acc, getCurrentPath_loop fuel nds' k acc
                = getCurrentPath_loop fuel nds k acc.
Proof.
  intros Hh. induction m as [|m IH]; intros k n Hk Hs Hag fuel acc.
  - pose proof (h_pos _ _ Hh _ _ Hk). lia.
  - destruct fuel as [|fuel]; [done|]. simpl.
    destruct (truthy k); [|done]. rewrite Hk, (Hag _ _ Hk) by lia.
    destruct (parentId n) as [p|] eqn:Hp; [|done].
    destruct (truthy p); [|done].
    destruct (h_parent _ _ Hh _ _ _ Hk Hp) as (pn & Hpn & Hsp).
    apply (IH p pn Hpn); [lia|]. intros j nj Hj Hle. apply Hag; [done|lia].
Qed.

(** X17: from a reachable state, a successful [addNode] with a fresh
    identifier extends the current path by the new node: what
    [getCurrentPath] returned before, with the node that was under the
    cursor now listing the new child, followed by the new node. *)
Theorem addNode_extends_current_path s pid tl an nodeData v ts now iso :
  reachable s → timelines s !! pid = Some tl →
  nodes tl !! activeNodeId tl = Some an →
  truthy v = true → nodes tl !! v = None →
  ∃ pre n,
    (addNode s pid nodeData v ts now iso).2 = Some n ∧
    (∀ fuel, (Z.to_nat (stepNumber an) ≤ fuel)%nat →
             getCurrentPath s pid fuel = Some (pre ++ [an])%list) ∧
    (∀ fuel, (Z.to_nat (stepNumber an) < fuel)%nat →
             getCurrentPath (addNode s pid nodeData v ts now iso).1 pid fuel
             = Some (pre ++ [push_child v an; n])%list).
Proof.
  intros Hr E Han Hv Hfresh.
  pose proof (reachable_well_formed _ _ _ Hr E) as Hwf.
  pose proof (wf_history _ Hwf) as Hh.
  destruct (wf_cursor _ Hwf) as (an0 & ab & Han0 & Hab & _).
  destruct (addNode_result s pid tl ab an nodeData v ts now iso E Hab Han)
    as (tl' & Hres & Hl & Hnodes & _ & Hact & _).
  rewrite (inserted_nodes nodeData v ts ab an tl Hwf Han) in Hnodes.
  destruct (h_key _ _ Hh _ _ Han) as [Hid Hta].
  pose proof (h_pos _ _ Hh _ _ Han) as Hpos.
  assert (activeNodeId tl ≠ v) as Hne by (intros Heq; congruence).
  set (nn := inserted_node nodeData v ts an tl) in *.
  assert (∀ fuel acc,
            getCurrentPath_loop (S fuel) (nodes tl) (activeNodeId tl) acc
            = match parentId an with
              | Some p => if truthy p
                          then getCurrentPath_loop fuel (nodes tl) p (an :: acc)
                          else Some (an :: acc)
              | None => Some (an :: acc)
              end) as Hold.
  { intros fuel acc. simpl. by rewrite Hta, Han. }
  assert (∀ fuel,
            getCurrentPath_loop (S (S fuel)) (nodes tl') v []
            = match parentId an with
              | Some p => if truthy p
                          then getCurrentPath_loop fuel (nodes tl') p
                                 [push_child v an; nn]
                          else Some [push_child v an; nn]
              | None => Some [push_child v an; nn]
              end) as Hnew.
  { intros fuel. rewrite Hnodes. simpl.
    rewrite Hv, lookup_insert_eq. simpl. rewrite Hta.
    rewrite lookup_insert_ne by done. by rewrite lookup_insert_eq. }
  exists (match parentId an with
          | Some p =>
              if truthy p
              then default []
                     (getCurrentPath_loop (Z.to_nat (stepNumber an))
                        (nodes tl) p [])
              else []
          | None => []
          end), nn.
  split; [by rewrite Hres, Hid|].
  destruct (parentId an) as [p|] eqn:Hp.
  - destruct (h_parent _ _ Hh _ _ _ Han Hp) as (pn & Hpn & Hs).
    destruct (h_key _ _ Hh _ _ Hpn) as [_ Htp]. rewrite Htp in *.
    destruct (getCurrentPath_loop_spec _ _ Hh (Z.to_nat (stepNumber pn)) p pn []
                Hpn ltac:(specialize (h_pos _ _ Hh _ _ Hpn); lia))
      as (pre & root & Hrun & _).
    assert (∀ fuel acc, (Z.to_nat (stepNumber pn) ≤ fuel)%nat →
              getCurrentPath_loop fuel (nodes tl) p acc = Some (pre ++ acc)%list)
      as Hrun'.
    { intros fuel acc Hf. specialize (Hrun fuel Hf).
      destruct (getCurrentPath_loop_acc _ _ _ _ _ Hrun) as (pre' & Heq & Hall).
      rewrite !app_nil_r in Heq. subst pre'. apply Hall. }
    rewrite (Hrun' (Z.to_nat (stepNumber an)) []) by lia. simpl.
    rewrite app_nil_r. split.
    + intros [|fuel] Hf; [lia|]. unfold getCurrentPath, getTimeline.
      rewrite E, Hold. apply Hrun'. lia.
    + intros [|[|fuel]] Hf; try lia. unfold getCurrentPath, getTimeline.
      rewrite Hl, Hact, Hnew.
      rewrite (getCurrentPath_loop_agree (nodes tl) (nodes tl') _ Hh
                 (Z.to_nat (stepNumber pn)) p pn Hpn).
      * apply Hrun'. lia.
      * specialize (h_pos _ _ Hh _ _ Hpn). lia.
      * intros j nj Hj Hle. rewrite Hnodes.
        rewrite lookup_insert_ne by (intros <-; congruence).
        rewrite lookup_insert_ne; [done|]. intros <-.
        rewrite Han in Hj. injection Hj as <-.
        specialize (h_pos _ _ Hh _ _ Hpn). lia.
  - split.
    + intros [|fuel] Hf; [lia|]. unfold getCurrentPath, getTimeline.
      by rewrite E, Hold.
    + intros [|[|fuel]] Hf; try lia.
      unfold getCurrentPath, getTimeline. by rewrite Hl, Hact, Hnew.
Qed.

Lemma addNode_extends_current_path_witness :
  ∃ pre n,
    (addNode linear_service "P1" sample_data "n4" 4 4 "x").2 = Some n ∧
    (∀ fuel, (4 ≤ fuel)%nat →
             getCurrentPath linear_service "P1" fuel
             = Some (pre ++ [chain_step 3 "n3" "n2" []])%list) ∧
    (∀ fuel, (4 < fuel)%nat →
             getCurrentPath (addNode linear_service "P1" sample_data "n4" 4 4 "x").1
               "P1" fuel
             = Some (pre ++ [push_child "n4" (chain_step 3 "n3" "n2" []); n])%list).
Proof.
  apply (addNode_extends_current_path linear_service "P1"
           (timeline_of linear_service "P1") (chain_step 3 "n3" "n2" [])).
  - exact linear_reachable.
  - vm_compute. reflexivity.
  - vm_compute. reflexivity.
  - reflexivity.
  - vm_compute. reflexivity.
Defined.

(** ** Branches are only ever added *)

Lemma tl_exec_branch_kept opts op tl tl' kb b :
  well_formed tl → tl_fresh op tl →
  match op with OpCreateTimeline _ _ _ _ _ _ => False | _ => True end →
  tl_exec opts op (Some tl) = Some tl' →
  branches tl !! kb = Some b →
  ∃ b', branches tl' !! kb = Some b' ∧
        (b' = b ∨ b' = set_isActive false b ∨
         (kb = activeBranchId tl ∧ ∃ v, b' = push_nodeId v b)).
Proof.
  intros Hwf Hf Hnc Hex Hb. destruct op; simpl in *; try done;
    injection Hex as <-.
  - unfold tl_addNode.
    destruct (branches tl !! activeBranchId tl) as [ab|] eqn:Hab;
      [|exists b; by split; [|left]].
    destruct (nodes tl !! activeNodeId tl) as [an|] eqn:Han;
      [|exists b; by split; [|left]].
    assert (branches (tl_auto opts now iso
                        (tl_inserted nodeData newNodeId ts ab an tl))
            = branches (tl_inserted nodeData newNodeId ts ab an tl)) as ->.
    { unfold tl_auto. destruct (autoCheckpointInterval opts) as [i|]; [|done].
      destruct (i =? 0); [done|]. by destruct (_ >=? _). }
    rewrite (inserted_branches nodeData newNodeId ts ab an tl Hwf Hab).
    destruct (decide (kb = activeBranchId tl)) as [->|Hne].
    + rewrite lookup_insert_eq. rewrite Hab in Hb. injection Hb as <-.
      eexists. split; [done|]. right. right. split; [done|]. by eexists.
    + rewrite lookup_insert_ne by done. exists b. by split; [|left].
  - exists b. split; [|by left]. unfold tl_navigateToNode.
    destruct (nodes tl !! nodeId) as [m|]; [|done].
    by destruct (branches tl !! branchId m).
  - unfold tl_createBranch.
    destruct (nodes tl !! activeNodeId tl) as [an|]; [|exists b; by split; [|left]].
    destruct (_ >=? _); [exists b; by split; [|left]|].
    exists (set_isActive false b). split; [by apply forked_lookup_old|].
    right. by left.
  - exists b. by split; [|left].
  - exists b. split; [|by left]. unfold tl_navigateToCheckpoint.
    destruct (checkpoints tl !! checkpointName) as [j|]; [|done].
    destruct (truthy j); [|done]. unfold tl_navigateToNode.
    destruct (nodes tl !! j) as [m|]; [|done].
    by destruct (branches tl !! branchId m).
Qed.

(** X18: from a reachable state, no operation other than re-creating the
    project's timeline removes a branch or changes its name, description,
    creation time, parent branch or branch point: a stored branch stays as
    it was, or has its [isActive] flag cleared (by a fork), or, being the
    active branch, gets one more identifier at the end of [nodeIds]. *)
Theorem branches_persist s op pid tl kb b :
  reachable s → uuid_fresh op s → ¬ recreates pid op →
  timelines s !! pid = Some tl → branches tl !! kb = Some b →
  ∃ tl' b',
    timelines (exec op s) !! pid = Some tl' ∧ branches tl' !! kb = Some b' ∧
    (b' = b ∨ b' = set_isActive false b ∨
     (kb = activeBranchId tl ∧ ∃ v, b' = push_nodeId v b)).
Proof.
  intros Hr Hf Hnr E Hb. pose proof (reachable_service_ok _ Hr) as Hs.
  rewrite exec_slot by by apply service_ok_keyed.
  case_decide as Hp; [|exists tl, b; by split; [|split; [|left]]].
  rewrite E. destruct (Hs _ _ E) as [_ Hwf].
  assert (tl_fresh op tl) as Hft
    by (apply (uuid_fresh_local _ s); [done|by rewrite Hp]).
  destruct (tl_exec_well_formed (options s) op tl Hwf Hft) as (tl' & Hex & _).
  rewrite Hex. exists tl'.
  destruct (tl_exec_branch_kept (options s) op tl tl' kb b Hwf Hft)
    as (b' & Hb' & Hc); try done; [|by exists b'].
  destruct op; try done; simpl in *; by apply Hnr.
Qed.

Lemma branches_persist_witness :
  ∃ tl' b',
    timelines (exec (OpCreateBranch "P1" "third" "another try" "b2" 7)
                 forked_service) !! "P1" = Some tl' ∧
    branches tl' !! "b1" = Some b' ∧
    (b' = mkBranch "b1" "experiment" "try alt" 1 ["n0"] true (Some "b0")
            (Some "n0") ∨
     b' = set_isActive false
            (mkBranch "b1" "experiment" "try alt" 1 ["n0"] true (Some "b0")
               (Some "n0")) ∨
     ("b1" = activeBranchId (timeline_of forked_service "P1") ∧
      ∃ v, b' = push_nodeId v
                  (mkBranch "b1" "experiment" "try alt" 1 ["n0"] true
                     (Some "b0") (Some "n0")))).
Proof.
  apply (branches_persist forked_service
           (OpCreateBranch "P1" "third" "another try" "b2" 7) "P1"
           (timeline_of forked_service "P1") "b1").
  - exact forked_reachable.
  - vm_compute. reflexivity.
  - simpl. tauto.
  - vm_compute. reflexivity.
  - vm_compute. reflexivity.
Defined.

(** ** When the operations succeed *)

(** X19: in every reachable state, on a project that has a timeline,
    [addNode] always returns a node, and [navigateToNode] succeeds exactly
    on the identifiers of stored nodes. *)
Theorem operations_succeed s pid tl :
  reachable s → timelines s !! pid = Some tl →
  (∀ nodeData v ts now iso,
     is_Some (addNode s pid nodeData v ts now iso).2) ∧
  (∀ k, (navigateToNode s pid k).2 = true ↔ is_Some (nodes tl !! k)).
Proof.
  intros Hr E. pose proof (reachable_well_formed _ _ _ Hr E) as Hwf.
  destruct (wf_cursor _ Hwf) as (an & ab & Han & Hab & _). split.
  - intros nodeData v ts now iso.
    destruct (addNode_result s pid tl ab an nodeData v ts now iso E Hab Han)
      as (tl' & Hres & _). rewrite Hres. by eexists.
  - intros k. unfold navigateToNode, getTimeline. rewrite E.
    destruct (nodes tl !! k) as [n|] eqn:Hn; [|split; [done|by intros [? ?]]].
    destruct (proj1 (wf_membership _ Hwf) _ _ Hn) as (b & -> & _).
    split; [by eexists|done].
Qed.

Lemma operations_succeed_witness :
  (∀ nodeData v ts now iso,
     is_Some (addNode busy_service "P1" nodeData v ts now iso).2) ∧
  (∀ k, (navigateToNode busy_service "P1" k).2 = true
        ↔ is_Some (nodes (timeline_of busy_service "P1") !! k)).
Proof.
  apply (operations_succeed busy_service "P1").
  - exact busy_reachable.
  - vm_compute. reflexivity.
Defined.

(** ** The name of an automatic checkpoint *)

(** X20: the replacement applied to the time stamp of an automatic
    checkpoint keeps the length of the string, leaves no colon and no dot in
    it, keeps every other character, and does not change a string that has
    neither. *)
Theorem replace_colon_dot_clean x :
  length (chars (replace_colon_dot x)) = length (chars x) ∧
  Forall (λ c, ¬ colon_or_dot c) (chars (replace_colon_dot x)) ∧
  Forall2 (λ c d, if decide (colon_or_dot c) then d = Ascii.ascii_of_nat 45
                  else d = c)
          (chars x) (chars (replace_colon_dot x)) ∧
  (Forall (λ c, ¬ colon_or_dot c) (chars x) → replace_colon_dot x = x).
Proof.
  unfold colon_or_dot. induction x as [|c x (IH1 & IH2 & IH3 & IH4)]; [done|].
  simpl. split; [by rewrite IH1|]. split; [|split].
  - constructor; [|done].
    repeat case_decide; subst; intros [Hcd|Hcd]; try done; by vm_compute in Hcd.
  - constructor; [|done]. repeat case_decide; subst; try done; tauto.
  - intros [Hc Hx]%Forall_cons. rewrite (IH4 Hx).
    repeat case_decide; subst; try done; exfalso; apply Hc; tauto.
Qed.

(** ** Where branches come from *)






(** ** Binding a checkpoint *)

(** X22: on a project that has a timeline, [createCheckpoint] succeeds and
    [getCheckpoints] then shows the name bound to the node under the cursor,
    whether or not the name was bound before, and every other name as it
    was. *)
Theorem createCheckpoint_binds s pid tl x :
  timelines s !! pid = Some tl →
  (createCheckpoint s pid x).2 = true ∧
  ∃ cps,
    getCheckpoints (createCheckpoint s pid x).1 pid = Some cps ∧
    cps !! x = Some (activeNodeId tl) ∧
    ∀ y, y ≠ x → cps !! y = checkpoints tl !! y.
Proof.
  intros E. unfold getCheckpoints, createCheckpoint, getTimeline. rewrite E.
  simpl. split; [done|]. rewrite lookup_insert_eq. eexists. split; [done|].
  simpl. split; [apply lookup_insert_eq|].
  intros y Hy. by rewrite lookup_insert_ne.
Qed.

Lemma createCheckpoint_binds_witness :
  (createCheckpoint busy_service "P1" "before").2 = true ∧
  ∃ cps,
    getCheckpoints (createCheckpoint busy_service "P1" "before").1 "P1"
    = Some cps ∧
    cps !! "before" = Some (activeNodeId (timeline_of busy_service "P1")) ∧
    ∀ y, y ≠ "before" →
         cps !! y = checkpoints (timeline_of busy_service "P1") !! y.
Proof.
  apply (createCheckpoint_binds busy_service "P1").
  vm_compute. reflexivity.
Defined.
